(** * RustDDS receive-side core: fragment assembly and the DDS sample cache.

    Shallow embedding of
    - [src/src/dds/fragment_assembler.rs] (AssemblyBuffer, FragmentAssembler)
    - [src/src/structure/dds_cache.rs]   (DDSCache, TopicCache, DDSHistoryCache)

    Conventions.
    - A Rust panic (slice index out of range, [copy_from_slice] length
      mismatch, [BitVec::set] out of range, division by zero, the
      [BTreeMap] range check, an explicit [panic!]) is modelled by [None]
      of the small panic monad [Pnc] below.
    - Sizes ([usize], [u32], [u16]) are [nat]: every product and sum the
      code forms from a [u32] and a [u16] stays below 2^64, so the only
      arithmetic that can leave the range of [usize] is the subtraction
      [fragment_starting_num - 1], written out with its underflow check.
    - Bytes are [Byte.byte]; a [BytesMut] / [Vec<u8>] is a [list byte]; a
      [BitVec] is a [list bool]. *)

From Stdlib Require Import ZArith Lia Sorting.Sorted.
From stdpp Require Import base gmap list strings.

Open Scope nat_scope.

(* ------------------------------------------------------------------ *)
(** ** The panic monad *)

Definition Pnc (A : Type) : Type := option A.

Definition pnc_ret {A} (a : A) : Pnc A := Some a.

Definition pnc_bind {A B} (m : Pnc A) (k : A -> Pnc B) : Pnc B :=
  match m with Some a => k a | None => None end.

Definition panic {A} : Pnc A := None.

Notation "'let!' x := m 'in' k" := (pnc_bind m (fun x => k))
  (at level 200, x name, m at level 100, k at level 200).

(* ------------------------------------------------------------------ *)
(** ** Slices, bytes and bit vectors *)

Abbreviation byte := Byte.byte.

(** [buf[from..to].copy_from_slice(src)]: panics when [from > to], when
    [to > buf.len()], or when [src.len() <> to - from]. *)
Definition slice_copy (buf : list byte) (from to : nat) (src : list byte)
  : Pnc (list byte) :=
  if (from <=? to) && (to <=? length buf) then
    if length src =? to - from
    then pnc_ret (take from buf ++ src ++ drop to buf)
    else panic
  else panic.

(** [&buf[from..to]] *)
Definition slice_range (buf : list byte) (from to : nat) : Pnc (list byte) :=
  if (from <=? to) && (to <=? length buf)
  then pnc_ret (take (to - from) (drop from buf))
  else panic.

(** [&buf[from..]] *)
Definition slice_from (buf : list byte) (from : nat) : Pnc (list byte) :=
  if from <=? length buf then pnc_ret (drop from buf) else panic.

(** [BitVec::from_elem(n, b)] *)
Definition bitvec_from_elem (n : nat) (b : bool) : list bool := replicate n b.

(** [BitVec::set(i, b)]: asserts [i < nbits]. *)
Definition bitvec_set (bv : list bool) (i : nat) (b : bool) : Pnc (list bool) :=
  if i <? length bv then pnc_ret (<[i:=b]> bv) else panic.

(** [BitVec::all()] *)
Definition bitvec_all (bv : list bool) : bool := forallb (fun b => b) bv.

(** Number of set bits. *)
Definition count_set (bv : list bool) : nat := length (filter (fun b => b = true) bv).

(** [for f in 0..n { bv.set(start + f, true); }] *)
Fixpoint set_range (bv : list bool) (start n : nat) : Pnc (list bool) :=
  match n with
  | 0 => pnc_ret bv
  | S n' => let! bv' := bitvec_set bv start true in set_range bv' (S start) n'
  end.

(** [a - b] on [usize] with overflow checks. *)
Definition usize_sub (a b : nat) : Pnc nat :=
  if b <=? a then pnc_ret (a - b) else panic.

(* ------------------------------------------------------------------ *)
(** ** Wire data *)

Module Wire.

(** [SequenceNumber] (an [i64]). *)
Definition SequenceNumber := Z.

(** [DATAFRAG_Flags], carried as a [BitFlags] set. *)
Inductive DATAFRAG_Flags := Endianness | InlineQos | Key | NonStandardPayload.

Definition DATAFRAG_Flags_eqb (a b : DATAFRAG_Flags) : bool :=
  match a, b with
  | Endianness, Endianness | InlineQos, InlineQos | Key, Key
  | NonStandardPayload, NonStandardPayload => true
  | _, _ => false
  end.

(** [BitFlags::contains] on a single flag. *)
Definition flags_contains (fl : list DATAFRAG_Flags) (f : DATAFRAG_Flags) : bool :=
  existsb (DATAFRAG_Flags_eqb f) fl.

(** [ChangeKind] *)
Inductive ChangeKind := ALIVE | NOT_ALIVE_DISPOSED | NOT_ALIVE_UNREGISTERED.

End Wire.
Import Wire.

(* ------------------------------------------------------------------ *)
(** ** Fragment assembly ([fragment_assembler.rs]) *)

Section FragmentAssembly.

(** [RepresentationIdentifier] and its two conversions live in
    [serialized_payload.rs], which is not part of the modelled sources:
    the assembler is verified for every representation of it. *)
Context {RepresentationIdentifier : Type}.
(** [RepresentationIdentifier::to_bytes]: the two header bytes. *)
Context (rep_id_to_bytes : RepresentationIdentifier -> byte * byte).
(** [RepresentationIdentifier::from_bytes(..).ok()]: [None] for an
    unrecognised identifier. *)
Context (rep_id_from_bytes : list byte -> option RepresentationIdentifier).

Record SerializedPayload := {
  representation_identifier : RepresentationIdentifier;
  representation_options : byte * byte;
  value : list byte
}.

(** Modelled from the spec: [SerializedPayload::new(rep_id, value)]
    (serialized_payload.rs is not under src/): a payload with the given
    identifier and bytes; the reserved options are zero. *)
Definition SerializedPayload_new (rep_id : RepresentationIdentifier)
    (v : list byte) : SerializedPayload :=
  {| representation_identifier := rep_id;
     representation_options := (Byte.x00, Byte.x00);
     value := v |}.

(** Modelled from the spec: [DDSData] (ddsdata.rs is not under src/):
    [DDSData::new] builds an alive data sample, [new_disposed_by_key] a
    key-only sample of the given change kind. *)
Inductive DDSData :=
| DDSData_new (p : SerializedPayload)
| DDSData_new_disposed_by_key (k : ChangeKind) (p : SerializedPayload).

(** The fields of [DataFrag] the assembler reads. *)
Record DataFrag := {
  writer_sn : SequenceNumber;
  fragment_starting_num : nat;     (* u32, 1-based *)
  fragments_in_submessage : nat;   (* u16 *)
  fragment_size : nat;             (* u16 *)
  data_size : nat;                 (* u32 *)
  serialized_payload : SerializedPayload
}.

Record AssemblyBuffer := {
  buffer_bytes : list byte;
  fragment_count : nat;
  received_bitmap : list bool;
  created_time : Z;
  modified_time : Z
}.

(** [AssemblyBuffer::new(data_size, fragment_size)]; [now] is
    [Timestamp::now()]. [data_size / frag_size] panics when the fragment
    size is zero. *)
Definition AssemblyBuffer_new (data_size : nat) (fragment_size : nat) (now : Z)
  : Pnc AssemblyBuffer :=
  let buffer_bytes := replicate data_size Byte.x00 in
  let frag_size := fragment_size in
  if frag_size =? 0 then panic else
  let fragment_count :=
    data_size / frag_size + (if data_size mod frag_size =? 0 then 0 else 1) in
  pnc_ret {| buffer_bytes := buffer_bytes;
             fragment_count := fragment_count;
             received_bitmap := bitvec_from_elem fragment_count false;
             created_time := now;
             modified_time := now |}.

(** [to_before_byte] of [insert_frags], for a 0-based start fragment. *)
Definition insert_frags_to_before_byte (self : AssemblyBuffer) (datafrag : DataFrag)
    (frag_size : nat) : nat :=
  let from_byte := (fragment_starting_num datafrag - 1) * frag_size in
  if fragment_starting_num datafrag <? fragment_count self
  then from_byte + fragments_in_submessage datafrag * frag_size
  else from_byte + length (value (serialized_payload datafrag)).

(** [AssemblyBuffer::insert_frags(&mut self, datafrag, frag_size)]. *)
Definition insert_frags (self : AssemblyBuffer) (datafrag : DataFrag)
    (frag_size : nat) (now : Z) : Pnc AssemblyBuffer :=
  let frags_in_subm := fragments_in_submessage datafrag in
  let fragment_starting_num := fragment_starting_num datafrag in
  let sp := serialized_payload datafrag in
  let! start_frag_from_0 := usize_sub fragment_starting_num 1 in
  let room_for_sp_header := if start_frag_from_0 =? 0 then 4 else 0 in
  let from_byte := start_frag_from_0 * frag_size in
  let to_before_byte :=
    if fragment_starting_num <? fragment_count self
    then from_byte + frags_in_subm * frag_size
    else from_byte + length (value sp) in
  let from_byte := from_byte + room_for_sp_header in
  let! bytes :=
    if start_frag_from_0 =? 0 then
      let (i0, i1) := rep_id_to_bytes (representation_identifier sp) in
      let (o0, o1) := representation_options sp in
      let! b := slice_copy (buffer_bytes self) 0 2 [i0; i1] in
      slice_copy b 2 4 [o0; o1]
    else pnc_ret (buffer_bytes self) in
  let! bytes := slice_copy bytes from_byte to_before_byte (value sp) in
  let! bitmap := set_range (received_bitmap self) start_frag_from_0 frags_in_subm in
  pnc_ret {| buffer_bytes := bytes;
             fragment_count := fragment_count self;
             received_bitmap := bitmap;
             created_time := created_time self;
             modified_time := now |}.

(** [AssemblyBuffer::is_complete] *)
Definition is_complete (self : AssemblyBuffer) : bool :=
  bitvec_all (received_bitmap self).

Record FragmentAssembler := {
  assembler_fragment_size : nat;   (* FragmentAssembler.fragment_size, u16 *)
  assembly_buffers : gmap SequenceNumber AssemblyBuffer
}.

(** [FragmentAssembler::new(fragment_size)] *)
Definition FragmentAssembler_new (fragment_size : nat) : FragmentAssembler :=
  {| assembler_fragment_size := fragment_size; assembly_buffers := ∅ |}.

(** [FragmentAssembler::new_datafrag(&mut self, datafrag, flags)]: the new
    assembler state and the returned [Option<DDSData>]. *)
Definition new_datafrag (self : FragmentAssembler) (datafrag : DataFrag)
    (flags : list DATAFRAG_Flags) (now : Z)
  : Pnc (FragmentAssembler * option DDSData) :=
  let writer_sn := writer_sn datafrag in
  let frag_size := assembler_fragment_size self in
  (* entry(writer_sn).or_insert_with(|| AssemblyBuffer::new(..)) *)
  let! abuf :=
    match assembly_buffers self !! writer_sn with
    | Some ab => pnc_ret ab
    | None => AssemblyBuffer_new (data_size datafrag) frag_size now
    end in
  let! abuf := insert_frags abuf datafrag frag_size now in
  let bufs := <[writer_sn := abuf]> (assembly_buffers self) in
  if is_complete abuf then
    match bufs !! writer_sn with
    | Some abuf =>
        let self' := {| assembler_fragment_size := frag_size;
                        assembly_buffers := delete writer_sn bufs |} in
        let! hdr := slice_range (buffer_bytes abuf) 0 2 in
        match rep_id_from_bytes hdr with
        | None => pnc_ret (self', None)
        | Some rep_id =>
            let! body := slice_from (buffer_bytes abuf) 4 in
            let ser_data_or_key := SerializedPayload_new rep_id body in
            let ddsdata :=
              if flags_contains flags Key
              then DDSData_new_disposed_by_key NOT_ALIVE_DISPOSED ser_data_or_key
              else DDSData_new ser_data_or_key in
            pnc_ret (self', Some ddsdata)
        end
    | None =>
        (* "Assembly buffer mysteriously lost" *)
        pnc_ret ({| assembler_fragment_size := frag_size;
                    assembly_buffers := bufs |}, None)
    end
  else
    pnc_ret ({| assembler_fragment_size := frag_size; assembly_buffers := bufs |},
             None).

End FragmentAssembly.

(* ------------------------------------------------------------------ *)
(** ** Ordered maps ([std::collections::BTreeMap]) *)

(** [std::time::Instant]: a totally ordered monotonic timestamp. *)
Definition Instant := Z.

(** A [BTreeMap<Instant, V>]: its entries in ascending key order and
    whether its root node has been allocated. [BTreeMap::new()] allocates
    no root; the first [insert] allocates it and [remove] never frees it.
    [BTreeMap::range] only runs its bound check (and panics on inverted
    bounds) when a root exists: on a map without root it returns an empty
    range. *)
Module BTree.

Record t (V : Type) := mk { root : bool; entries : list (Instant * V) }.
Arguments mk {V}. Arguments root {V}. Arguments entries {V}.

Definition new {V} : t V := mk false [].

Fixpoint insert_entries {V} (k : Instant) (v : V) (l : list (Instant * V))
  : list (Instant * V) * option V :=
  match l with
  | [] => ([(k, v)], None)
  | (k', v') :: l' =>
      if Z.ltb k k' then ((k, v) :: l, None)
      else if Z.eqb k k' then ((k, v) :: l', Some v')
      else let (r, o) := insert_entries k v l' in ((k', v') :: r, o)
  end.

(** [map.insert(k, v)]: the new map and the previous value. *)
Definition insert {V} (m : t V) (k : Instant) (v : V) : t V * option V :=
  let (l, o) := insert_entries k v (entries m) in (mk true l, o).

Fixpoint get_entries {V} (k : Instant) (l : list (Instant * V)) : option V :=
  match l with
  | [] => None
  | (k', v) :: l' =>
      if Z.eqb k k' then Some v
      else if Z.ltb k k' then None
      else get_entries k l'
  end.

(** [map.get(&k)] *)
Definition get {V} (m : t V) (k : Instant) : option V := get_entries k (entries m).

Fixpoint remove_entries {V} (k : Instant) (l : list (Instant * V))
  : list (Instant * V) * option V :=
  match l with
  | [] => ([], None)
  | (k', v) :: l' =>
      if Z.eqb k k' then (l', Some v)
      else let (r, o) := remove_entries k l' in ((k', v) :: r, o)
  end.

(** [map.remove(&k)] *)
Definition remove {V} (m : t V) (k : Instant) : t V * option V :=
  let (l, o) := remove_entries k (entries m) in (mk (root m) l, o).

(** The leaf edge of the lower bound [Included(s)]: skip keys [< s]. *)
Fixpoint drop_lt {V} (s : Instant) (l : list (Instant * V)) : list (Instant * V) :=
  match l with
  | [] => []
  | (k, v) :: l' => if Z.ltb k s then drop_lt s l' else l
  end.

(** Iterate up to the upper bound [Included(e)]: stop at the first key [> e]. *)
Fixpoint take_le {V} (e : Instant) (l : list (Instant * V)) : list (Instant * V) :=
  match l with
  | [] => []
  | (k, v) :: l' => if Z.leb k e then (k, v) :: take_le e l' else []
  end.

(** [map.range((Included(s), Included(e)))], collected in iteration order;
    panics with "range start is greater than range end" when [s > e] and
    the map has a root. *)
Definition range_incl {V} (m : t V) (s e : Instant) : Pnc (list (Instant * V)) :=
  if root m then
    if Z.ltb e s then panic
    else pnc_ret (take_le e (drop_lt s (entries m)))
  else pnc_ret [].

End BTree.

(* ------------------------------------------------------------------ *)
(** ** The sample cache ([dds_cache.rs]) *)

(** [TopicKind] *)
Inductive TopicKind := NO_KEY | WITH_KEY.

Section SampleCache.

(** The cache stores [CacheChange]s and [QosPolicies] without looking
    inside them. *)
Context {CacheChange QosPolicies : Type}.
(** [QosPolicies::qos_none()] *)
Context (qos_none : QosPolicies).

Record DDSHistoryCache := { changes : BTree.t CacheChange }.

(** [DDSHistoryCache::new()] *)
Definition DDSHistoryCache_new : DDSHistoryCache := {| changes := BTree.new |}.

(** [DDSHistoryCache::add_change]: panics when the instant was a key. *)
Definition hc_add_change (self : DDSHistoryCache) (instant : Instant)
    (cache_change : CacheChange) : Pnc DDSHistoryCache :=
  let (m, result) := BTree.insert (changes self) instant cache_change in
  match result with
  | None => pnc_ret {| changes := m |}
  | Some _ => panic
  end.

(** [DDSHistoryCache::get_change] *)
Definition hc_get_change (self : DDSHistoryCache) (instant : Instant)
  : option CacheChange :=
  BTree.get (changes self) instant.

(** [DDSHistoryCache::get_range_of_changes_vec]: the loop pushes the
    range's items in iteration order. *)
Definition get_range_of_changes_vec (self : DDSHistoryCache)
    (start_instant end_instant : Instant) : Pnc (list (Instant * CacheChange)) :=
  let! r := BTree.range_incl (changes self) start_instant end_instant in
  pnc_ret (fold_left (fun acc ic => acc ++ [ic]) r []).

(** [DDSHistoryCache::remove_change] *)
Definition hc_remove_change (self : DDSHistoryCache) (instant : Instant)
  : DDSHistoryCache * option CacheChange :=
  let (m, o) := BTree.remove (changes self) instant in ({| changes := m |}, o).

Record TopicCache := {
  topic_data_type_name : string;
  topic_kind : TopicKind;
  topic_qos : QosPolicies;
  history_cache : DDSHistoryCache
}.

(** [TopicCache::new(topic_kind, topic_data_type_name)] *)
Definition TopicCache_new (topic_kind : TopicKind) (topic_data_type_name : string)
  : TopicCache :=
  {| topic_data_type_name := topic_data_type_name;
     topic_kind := topic_kind;
     topic_qos := qos_none;
     history_cache := DDSHistoryCache_new |}.

(** [TopicCache::add_change] *)
Definition tc_add_change (self : TopicCache) (instant : Instant)
    (cache_change : CacheChange) : Pnc TopicCache :=
  let! h := hc_add_change (history_cache self) instant cache_change in
  pnc_ret {| topic_data_type_name := topic_data_type_name self;
             topic_kind := topic_kind self;
             topic_qos := topic_qos self;
             history_cache := h |}.

Record DDSCache := { topic_caches : gmap string TopicCache }.

(** [DDSCache::new()] *)
Definition DDSCache_new : DDSCache := {| topic_caches := ∅ |}.

(** [DDSCache::add_new_topic]: the new cache and the returned [bool]. *)
Definition add_new_topic (self : DDSCache) (topic_name : string)
    (topic_kind : TopicKind) (topic_data_type_name : string) : DDSCache * bool :=
  match topic_caches self !! topic_name with
  | Some _ => (self, false)
  | None =>
      ({| topic_caches := <[topic_name := TopicCache_new topic_kind topic_data_type_name]>
                            (topic_caches self) |}, true)
  end.

(** [DDSCache::remove_topic] *)
Definition remove_topic (self : DDSCache) (topic_name : string) : DDSCache :=
  match topic_caches self !! topic_name with
  | Some _ => {| topic_caches := delete topic_name (topic_caches self) |}
  | None => self
  end.

(** [DDSCache::get_topic_qos] *)
Definition get_topic_qos (self : DDSCache) (topic_name : string) : option QosPolicies :=
  match topic_caches self !! topic_name with
  | Some tc => Some (topic_qos tc)
  | None => None
  end.

(** A write [*q = qos] through [DDSCache::get_topic_qos_mut]; when the
    topic is missing the call returns [None] and nothing is written. *)
Definition write_topic_qos_mut (self : DDSCache) (topic_name : string)
    (qos : QosPolicies) : DDSCache :=
  match topic_caches self !! topic_name with
  | Some tc =>
      {| topic_caches := <[topic_name := {| topic_data_type_name := topic_data_type_name tc;
                                            topic_kind := topic_kind tc;
                                            topic_qos := qos;
                                            history_cache := history_cache tc |}]>
                           (topic_caches self) |}
  | None => self
  end.

(** [DDSCache::from_topic_get_change] *)
Definition from_topic_get_change (self : DDSCache) (topic_name : string)
    (instant : Instant) : option CacheChange :=
  match topic_caches self !! topic_name with
  | Some tc => hc_get_change (history_cache tc) instant
  | None => None
  end.

(** [DDSCache::from_topic_get_changes_in_range] *)
Definition from_topic_get_changes_in_range (self : DDSCache) (topic_name : string)
    (start_instant end_instant : Instant) : Pnc (list (Instant * CacheChange)) :=
  match topic_caches self !! topic_name with
  | Some tc => get_range_of_changes_vec (history_cache tc) start_instant end_instant
  | None => pnc_ret []
  end.

(** [DDSCache::to_topic_add_change] *)
Definition to_topic_add_change (self : DDSCache) (topic_name : string)
    (instant : Instant) (cache_change : CacheChange) : Pnc DDSCache :=
  match topic_caches self !! topic_name with
  | Some tc =>
      let! tc' := tc_add_change tc instant cache_change in
      pnc_ret {| topic_caches := <[topic_name := tc']> (topic_caches self) |}
  | None => pnc_ret self
  end.

(** The caches a program can build with the operations of [DDSCache]. *)
Inductive cache_reachable : DDSCache -> Prop :=
| reach_cache_new : cache_reachable DDSCache_new
| reach_add_new_topic c n k tn :
    cache_reachable c -> cache_reachable (fst (add_new_topic c n k tn))
| reach_remove_topic c n :
    cache_reachable c -> cache_reachable (remove_topic c n)
| reach_write_qos c n q :
    cache_reachable c -> cache_reachable (write_topic_qos_mut c n q)
| reach_add_change c n i cc c' :
    cache_reachable c -> to_topic_add_change c n i cc = Some c' ->
    cache_reachable c'.

(** The entries a topic holds, in map order ([[]] for an unknown topic). *)
Definition topic_entries (self : DDSCache) (topic_name : string)
  : list (Instant * CacheChange) :=
  match topic_caches self !! topic_name with
  | Some tc => BTree.entries (changes (history_cache tc))
  | None => []
  end.

End SampleCache.

(** The assembly buffers a [FragmentAssembler] of fragment size
    [frag_size] can hold: built by [AssemblyBuffer::new] and updated by
    calls of [insert_frags] that return. *)
Inductive ab_reachable {RepresentationIdentifier : Type}
    (rep_id_to_bytes : RepresentationIdentifier -> byte * byte) (frag_size : nat)
  : AssemblyBuffer -> Prop :=
| reach_ab_new ds now ab :
    AssemblyBuffer_new ds frag_size now = Some ab ->
    ab_reachable rep_id_to_bytes frag_size ab
| reach_ab_insert ab df now ab' :
    ab_reachable rep_id_to_bytes frag_size ab ->
    insert_frags rep_id_to_bytes ab df frag_size now = Some ab' ->
    ab_reachable rep_id_to_bytes frag_size ab'.

(** The assemblers a receive path builds: [FragmentAssembler::new] and
    calls of [new_datafrag] that return. *)
Inductive fa_reachable {R : Type} (rep_id_to_bytes : R -> byte * byte)
    (rep_id_from_bytes : list byte -> option R) : FragmentAssembler -> Prop :=
| reach_fa_new F : fa_reachable rep_id_to_bytes rep_id_from_bytes (FragmentAssembler_new F)
| reach_fa_step fa df flags now fa' res :
    fa_reachable rep_id_to_bytes rep_id_from_bytes fa ->
    new_datafrag rep_id_to_bytes rep_id_from_bytes fa df flags now = Some (fa', res) ->
    fa_reachable rep_id_to_bytes rep_id_from_bytes fa'.

(* ------------------------------------------------------------------ *)
(** ** Feeding submessages, and the sender's split *)

(** A receive path handing DATA_FRAGs one after the other to
    [new_datafrag]; the list of what each call returned. *)
Fixpoint feed {R} (to_b : R -> byte * byte) (from_b : list byte -> option R)
    (fa : FragmentAssembler) (dfs : list DataFrag) (flags : list DATAFRAG_Flags) (now : Z)
  : Pnc (FragmentAssembler * list (option DDSData)) :=
  match dfs with
  | [] => pnc_ret (fa, [])
  | df :: dfs' =>
      let! r1 := new_datafrag to_b from_b fa df flags now in
      let! r2 := feed to_b from_b (fst r1) dfs' flags now in
      pnc_ret (fst r2, snd r1 :: snd r2)
  end.

(** [from_byte] of [insert_frags] after the header room is added. *)
Definition insert_frags_from_byte {R} (datafrag : DataFrag (RepresentationIdentifier := R))
    (frag_size : nat) : nat :=
  let start_frag_from_0 := fragment_starting_num datafrag - 1 in
  start_frag_from_0 * frag_size + (if start_frag_from_0 =? 0 then 4 else 0).

(** The four header bytes [insert_frags] writes with fragment 1. *)
Definition insert_frags_header {R} (rep_id_to_bytes : R -> byte * byte)
    (datafrag : DataFrag (RepresentationIdentifier := R)) : list byte :=
  let sp := serialized_payload datafrag in
  let (i0, i1) := rep_id_to_bytes (representation_identifier sp) in
  let (o0, o1) := representation_options sp in
  [i0; i1; o0; o1].

(** [ceil(data_size / fragment_size)], as [AssemblyBuffer::new] computes it. *)
Definition fragment_count_of (data_size frag_size : nat) : nat :=
  data_size / frag_size + (if data_size mod frag_size =? 0 then 0 else 1).

(** [l[a..b]], cut at the end of [l]. *)
Definition sublist (a b : nat) (l : list byte) : list byte := take (b - a) (drop a l).

(** The DATA_FRAG a writer with fragment size [F] sends for fragment [i]
    (0-based) of the serialized sample [full] (4-byte header included),
    one fragment per submessage: fragment 0 carries the header in its
    identifier and options fields and the bytes [full[4..F]]; fragment
    [i > 0] carries [full[i*F..(i+1)*F]], shorter for the last one. *)
Definition split_fragment {R} (rep : R) (sn : SequenceNumber) (F : nat)
    (full : list byte) (i : nat) : DataFrag :=
  {| writer_sn := sn; fragment_starting_num := S i; fragments_in_submessage := 1;
     fragment_size := F; data_size := length full;
     serialized_payload :=
       {| representation_identifier := rep;
          representation_options := (nth 2 full Byte.x00, nth 3 full Byte.x00);
          value := if i =? 0 then sublist 4 F full else sublist (i * F) ((i + 1) * F) full |} |}.

(** An assembly buffer for [full] holding the fragments [S]: sizes as
    built from [length full], bit [i] set exactly for [i] in [S], and the
    bytes of the fragments in [S] equal to those of [full]. *)
Definition reassembly_inv (F : nat) (full : list byte) (ab : AssemblyBuffer) (S : list nat)
  : Prop :=
  length (buffer_bytes ab) = length full /\
  fragment_count ab = fragment_count_of (length full) F /\
  length (received_bitmap ab) = fragment_count ab /\
  (forall i, i < fragment_count ab -> received_bitmap ab !! i = Some (bool_decide (i ∈ S))) /\
  (forall j, j < length full -> j / F ∈ S -> buffer_bytes ab !! j = full !! j).

(* ------------------------------------------------------------------ *)
(** ** Statements about maps *)

(** Entries in strictly ascending key order: the order of a [BTreeMap]. *)
Definition key_lt {V} (a b : Instant * V) : Prop := (fst a < fst b)%Z.

(** A history cache as the cache builds it: keys strictly ascending, and
    the root allocated exactly when there is an entry. *)
Definition hc_wf {C} (h : DDSHistoryCache (CacheChange := C)) : Prop :=
  StronglySorted key_lt (BTree.entries (changes h)) /\
  (BTree.root (changes h) = true <-> BTree.entries (changes h) <> []).

(** The key of an entry lies in [[s, e]]. *)
Definition in_closed {V} (s e : Instant) (ic : Instant * V) : bool :=
  (s <=? fst ic)%Z && (fst ic <=? e)%Z.

(* ------------------------------------------------------------------ *)
(** ** Concrete inputs *)

(** A [RepresentationIdentifier] standing for its own two bytes. *)
Definition raw_rep_id_to_bytes (r : byte * byte) : byte * byte := r.

Definition raw_rep_id_from_bytes (b : list byte) : option (byte * byte) :=
  match b with [b0; b1] => Some (b0, b1) | _ => None end.

(** The DATA_FRAG of end-to-end scenario 1 (data_size 100, one fragment,
    fragment_starting_num 1, fragments_in_submessage 1), for any
    representation identifier, options and payload bytes. *)
Definition scenario1_datafrag {R} (rep : R) (opts : byte * byte) (v : list byte)
  : DataFrag :=
  {| writer_sn := 1%Z; fragment_starting_num := 1; fragments_in_submessage := 1;
     fragment_size := 128; data_size := 100;
     serialized_payload := {| representation_identifier := rep;
                              representation_options := opts; value := v |} |}.

(** A DATA_FRAG for sequence number 1 with any identifier, options and
    payload bytes. *)
Definition datafrag_for {R} (rep : R) (opts : byte * byte)
    (ds fs start n : nat) (v : list byte) : DataFrag :=
  {| writer_sn := 1%Z; fragment_starting_num := start; fragments_in_submessage := n;
     fragment_size := fs; data_size := ds;
     serialized_payload := {| representation_identifier := rep;
                              representation_options := opts; value := v |} |}.

(** The same DATA_FRAG announcing another [data_size]. *)
Definition datafrag_with_data_size {R} (df : DataFrag (RepresentationIdentifier := R))
    (ds : nat) : DataFrag :=
  {| writer_sn := writer_sn df; fragment_starting_num := fragment_starting_num df;
     fragments_in_submessage := fragments_in_submessage df;
     fragment_size := fragment_size df; data_size := ds;
     serialized_payload := serialized_payload df |}.

(** A DATA_FRAG for sequence number 1 of a writer with fragment size
    [fs] and sample size [ds]. *)
Definition mk_datafrag (ds fs start n : nat) (v : list byte) : DataFrag (RepresentationIdentifier := byte * byte) :=
  {| writer_sn := 1%Z; fragment_starting_num := start; fragments_in_submessage := n;
     fragment_size := fs; data_size := ds;
     serialized_payload := {| representation_identifier := (Byte.x00, Byte.x01);
                              representation_options := (Byte.x00, Byte.x00);
                              value := v |} |}.

(** [AssemblyBuffer::new(8, 4)] at time 0: two fragments. *)
Definition ab_8_4 : AssemblyBuffer :=
  {| buffer_bytes := replicate 8 Byte.x00; fragment_count := 2;
     received_bitmap := [false; false]; created_time := 0%Z; modified_time := 0%Z |}.

(** A 10-byte serialized sample: header [00 01 00 00] and six bytes of
    data; with fragment size 4 it makes three fragments. *)
Definition sample_10 : list byte :=
  [Byte.x00; Byte.x01; Byte.x00; Byte.x00;
   Byte.x41; Byte.x42; Byte.x43; Byte.x44; Byte.x45; Byte.x46].

(** The assembler of fragment size 4 after the second fragment of an
    8-byte sample of sequence number 1 (its buffer is half filled). *)
Definition fa_4_after_frag2 : FragmentAssembler :=
  match new_datafrag raw_rep_id_to_bytes raw_rep_id_from_bytes (FragmentAssembler_new 4)
          (mk_datafrag 8 4 2 1 (replicate 4 Byte.x07)) [] 0%Z with
  | Some (fa, _) => fa
  | None => FragmentAssembler_new 4
  end.

(** A cache holding the topic ["t"] and no change yet (changes are
    [nat]s, QoS policies [unit]). *)
Definition cache_t : DDSCache (CacheChange := nat) (QosPolicies := unit) :=
  fst (add_new_topic tt DDSCache_new "t"%string WITH_KEY "T"%string).

(** [cache_t] after a change [7] at instant 5 of topic ["t"]. *)
Definition cache_t5 : DDSCache (CacheChange := nat) (QosPolicies := unit) :=
  default cache_t (to_topic_add_change cache_t "t"%string 5%Z 7).

(** A history holding the change [7] at instant 5 and nothing else. *)
Definition hist_5 : DDSHistoryCache (CacheChange := nat) :=
  {| changes := BTree.mk true [(5%Z, 7)] |}.

(** A history with no entry whose map has its root node. *)
Definition hist_rooted_empty : DDSHistoryCache (CacheChange := nat) :=
  {| changes := BTree.mk true [] |}.

(* ================================================================== *)
(** * Properties *)

(** Take apart a call of the panic monad that returned: each bind that
    was passed is named by an equation [E..]. *)
Ltac pnc_inv H :=
  repeat match type of H with
  | context [pnc_bind ?m _] =>
      let E := fresh "E" in
      destruct m eqn:E; simpl in H; [|discriminate H]
  | context [pnc_ret ?a] => unfold pnc_ret in H
  end.

(** ** Slices and bit vectors *)

Lemma slice_copy_length buf from to src buf' :
  slice_copy buf from to src = Some buf' -> length buf' = length buf.
Proof.
  unfold slice_copy, pnc_ret, panic.
  destruct (from <=? to) eqn:E1, (to <=? length buf) eqn:E2; simpl; try discriminate.
  destruct (length src =? to - from) eqn:E3; [|discriminate].
  intros [= <-]. apply Nat.leb_le in E1, E2. apply Nat.eqb_eq in E3.
  rewrite !length_app, length_take, length_drop. lia.
Qed.

Lemma slice_copy_panics_on_length buf from to src :
  length src <> to - from -> slice_copy buf from to src = None.
Proof.
  intros H. unfold slice_copy, pnc_ret, panic.
  destruct ((from <=? to) && (to <=? length buf)); [|done].
  destruct (length src =? to - from) eqn:E; [apply Nat.eqb_eq in E; lia | done].
Qed.

Lemma slice_copy_panics_past_end buf from to src :
  length buf < to -> slice_copy buf from to src = None.
Proof.
  intros H. unfold slice_copy, panic.
  destruct (to <=? length buf) eqn:E; [apply Nat.leb_le in E; lia|].
  by rewrite andb_false_r.
Qed.

Lemma slice_copy_panics_inverted buf from to src :
  to < from -> slice_copy buf from to src = None.
Proof.
  intros H. unfold slice_copy, panic.
  destruct (from <=? to) eqn:E; [apply Nat.leb_le in E; lia|]. done.
Qed.

Lemma set_range_length bv start n bv' :
  set_range bv start n = Some bv' -> length bv' = length bv.
Proof.
  revert bv start. induction n as [|n IH]; intros bv start; simpl.
  - by intros [= <-].
  - unfold bitvec_set, pnc_ret, panic.
    destruct (start <? length bv); simpl; [|discriminate].
    intros H. rewrite (IH _ _ H). apply length_insert.
Qed.

Lemma set_range_panics bv start n :
  0 < n -> length bv < start + n -> set_range bv start n = None.
Proof.
  revert bv start. induction n as [|n IH]; intros bv start Hn Hlen; [lia|].
  simpl. unfold bitvec_set, pnc_ret, panic.
  destruct (start <? length bv) eqn:E; simpl; [|done].
  apply Nat.ltb_lt in E. destruct n as [|n]; [lia|].
  apply IH; [lia|]. rewrite length_insert. lia.
Qed.

(** Replace every returned slice copy and bit range by its length fact. *)
Ltac lengths :=
  repeat match goal with
  | E : slice_copy _ _ _ _ = Some _ |- _ => apply slice_copy_length in E
  | E : set_range _ _ _ = Some _ |- _ => apply set_range_length in E
  end.

Lemma insert_frags_lengths {R} (to_b : R -> byte * byte) ab df F now ab' :
  insert_frags to_b ab df F now = Some ab' ->
  length (buffer_bytes ab') = length (buffer_bytes ab) /\
  fragment_count ab' = fragment_count ab /\
  length (received_bitmap ab') = length (received_bitmap ab).
Proof.
  unfold insert_frags. intros H. pnc_inv H. injection H as <-. simpl. lengths.
  match goal with
  | E : (if ?c then _ else _) = Some ?l |- _ =>
      assert (length l = length (buffer_bytes ab)); [destruct c|lia]
  end.
  - destruct (to_b _), (representation_options _). pnc_inv E0. lengths. lia.
  - unfold pnc_ret in E0. by injection E0 as <-.
Qed.

(** Take apart a goal [pnc_bind m k = None]: when [m] panics the goal
    holds, otherwise go on with [m]'s result, named by an equation. *)
Ltac pnc_case :=
  match goal with
  | |- context [pnc_bind ?m _] =>
      let E := fresh "E" in destruct m eqn:E; simpl; [|reflexivity]
  end.

(** The header write of [insert_frags] keeps the buffer length. *)
Lemma header_write_length {R} (to_b : R -> byte * byte) (c : bool)
    (sp : SerializedPayload) buf l :
  (if c then
     let (i0, i1) := to_b (representation_identifier sp) in
     let (o0, o1) := representation_options sp in
     let! b := slice_copy buf 0 2 [i0; i1] in slice_copy b 2 4 [o0; o1]
   else pnc_ret buf) = Some l ->
  length l = length buf.
Proof.
  destruct c.
  - destruct (to_b _), (representation_options _). intros H. pnc_inv H. lengths. lia.
  - by intros [= <-].
Qed.

(** A destination range that ends past the buffer panics. *)
Lemma insert_frags_past_end_panics {R} (to_b : R -> byte * byte) ab df F now :
  1 <= fragment_starting_num df ->
  length (buffer_bytes ab) < insert_frags_to_before_byte ab df F ->
  insert_frags to_b ab df F now = None.
Proof.
  intros Hs Hto. unfold insert_frags, insert_frags_to_before_byte, usize_sub in *.
  destruct (1 <=? fragment_starting_num df) eqn:E1; [|apply Nat.leb_gt in E1; lia].
  simpl. pnc_case. apply header_write_length in E.
  rewrite slice_copy_panics_past_end; [done|]. lia.
Qed.

(** The first fragment of a sample whose single fragment group is also the
    last one: [to_before_byte] is computed before [from_byte] is moved past
    the 4 header bytes, so the destination is 4 bytes shorter than the
    payload and [copy_from_slice] panics, whatever the payload length. *)
Lemma insert_frags_first_is_last_panics {R} (to_b : R -> byte * byte) ab df F now :
  fragment_starting_num df = 1 -> fragment_count ab <= 1 ->
  insert_frags to_b ab df F now = None.
Proof.
  intros Hs Hfc. unfold insert_frags, usize_sub. rewrite Hs. simpl.
  destruct (1 <? fragment_count ab) eqn:E; [apply Nat.ltb_lt in E; lia|].
  destruct (to_b _) as [i0 i1], (representation_options _) as [o0 o1].
  destruct (slice_copy (buffer_bytes ab) 0 2 _) as [b1|]; simpl; [|done].
  destruct (slice_copy b1 2 4 _) as [b2|]; simpl; [|done].
  set (L := length (value (serialized_payload df))).
  destruct (Nat.lt_ge_cases L 4).
  - rewrite slice_copy_panics_inverted; [done | simpl; lia].
  - rewrite slice_copy_panics_on_length; [done | simpl; lia].
Qed.

(** A fresh assembler fed the first submessage of sequence number [sn]
    builds its buffer with [AssemblyBuffer::new] and inserts into it. *)
Lemma new_datafrag_first_panics {R} (to_b : R -> byte * byte) from_b F df flags now ab :
  AssemblyBuffer_new (data_size df) F now = Some ab ->
  insert_frags to_b ab df F now = None ->
  new_datafrag to_b from_b (FragmentAssembler_new F) df flags now = None.
Proof.
  intros Hnew Hins. unfold new_datafrag, FragmentAssembler_new. simpl.
  rewrite lookup_empty. simpl. rewrite Hnew. simpl. by rewrite Hins.
Qed.

(** ** C1: single-fragment sample

    Claim C1 says that one DATA_FRAG carrying the only fragment of a
    100-byte sample (fragment size 128) completes the assembly and returns
    the payload [value[4..]]. On the code, [new_datafrag] panics on it for
    every payload length (the value of 100 bytes of the scenario as well as
    the 96 bytes following the header): [insert_frags] takes the last
    fragment branch, sets [to_before_byte = 0 + value.len()] and then
    moves [from_byte] to 4, so [copy_from_slice] gets a destination 4
    bytes shorter than its source. *)
Theorem C1_single_fragment_panics :
  forall (R : Type) (to_b : R -> byte * byte) (from_b : list byte -> option R)
         (rep : R) (opts : byte * byte) (v : list byte) flags now,
  new_datafrag to_b from_b (FragmentAssembler_new 128)
    (scenario1_datafrag rep opts v) flags now = None.
Proof.
  intros. eapply new_datafrag_first_panics; [reflexivity|].
  apply insert_frags_first_is_last_panics; reflexivity.
Qed.

(** The bitmap of a reachable buffer has one bit per fragment. *)
Lemma ab_reachable_bitmap_length {R} (to_b : R -> byte * byte) F ab :
  ab_reachable to_b F ab -> length (received_bitmap ab) = fragment_count ab.
Proof.
  induction 1 as [ds now ab Hnew | ab df now ab' _ IH Hins].
  - unfold AssemblyBuffer_new, pnc_ret, panic in Hnew.
    destruct (F =? 0); [discriminate|]. injection Hnew as <-. simpl.
    unfold bitvec_from_elem. apply length_replicate.
  - destruct (insert_frags_lengths _ _ _ _ _ _ Hins) as (_ & -> & ->). exact IH.
Qed.

Lemma insert_frags_start_zero_panics {R} (to_b : R -> byte * byte) ab df F now :
  fragment_starting_num df = 0 -> insert_frags to_b ab df F now = None.
Proof. intros H. unfold insert_frags, usize_sub. by rewrite H. Qed.

Lemma insert_frags_bits_past_count_panics {R} (to_b : R -> byte * byte) ab df F now :
  length (received_bitmap ab) = fragment_count ab ->
  1 <= fragments_in_submessage df ->
  fragment_count ab < fragment_starting_num df - 1 + fragments_in_submessage df ->
  insert_frags to_b ab df F now = None.
Proof.
  intros Hlen Hn Hfc.
  destruct (fragment_starting_num df) as [|s] eqn:Hs.
  { by apply insert_frags_start_zero_panics. }
  unfold insert_frags, usize_sub. rewrite Hs. simpl.
  pnc_case. pnc_case. rewrite set_range_panics; [done|lia|]. rewrite Hlen. lia.
Qed.

(** ** C2: out-of-range DATA_FRAGs

    Claim C2 says that [insert_frags] drops (and logs) a DATA_FRAG whose
    fragment_starting_num is 0 or past fragment_count, or whose fragments
    would be written past data_size, and leaves the buffer unchanged.
    [insert_frags] has no such check ("TODO: Sanity checks?"): on each of
    these inputs it panics. For every buffer a [FragmentAssembler] can hold:
    fragment_starting_num 0 panics (usize underflow); a submessage with at
    least one fragment reaching past fragment_count (every
    fragment_starting_num > fragment_count among them) panics in
    [BitVec::set]; a destination range ending past the buffer panics in the
    slice copy. *)
Theorem C2_insert_frags_panics_on_bad_fragments :
  forall (R : Type) (to_b : R -> byte * byte) F ab df now,
  ab_reachable to_b F ab ->
  (fragment_starting_num df = 0 -> insert_frags to_b ab df F now = None) /\
  (1 <= fragments_in_submessage df ->
   fragment_count ab < fragment_starting_num df - 1 + fragments_in_submessage df ->
   insert_frags to_b ab df F now = None) /\
  (1 <= fragment_starting_num df ->
   length (buffer_bytes ab) < insert_frags_to_before_byte ab df F ->
   insert_frags to_b ab df F now = None).
Proof.
  intros R to_b F ab df now Hr. split; [|split].
  - apply insert_frags_start_zero_panics.
  - apply insert_frags_bits_past_count_panics.
    exact (ab_reachable_bitmap_length _ _ _ Hr).
  - apply insert_frags_past_end_panics.
Qed.

(** The three cases on the two-fragment buffer [AssemblyBuffer::new(8, 4)]:
    fragment 0, fragment 3 of 2, and fragments 2..3 of 2. *)
Lemma C2_insert_frags_panics_on_bad_fragments_witness :
  ab_reachable raw_rep_id_to_bytes 4 ab_8_4 /\
  insert_frags raw_rep_id_to_bytes ab_8_4 (mk_datafrag 8 4 0 1 []) 4 1 = None /\
  insert_frags raw_rep_id_to_bytes ab_8_4 (mk_datafrag 8 4 3 1 [Byte.x01]) 4 1 = None /\
  insert_frags raw_rep_id_to_bytes ab_8_4 (mk_datafrag 8 4 2 2 (replicate 8 Byte.x01)) 4 1 = None.
Proof.
  assert (Hr : ab_reachable raw_rep_id_to_bytes 4 ab_8_4).
  { apply (reach_ab_new _ _ 8 0%Z). reflexivity. }
  destruct (C2_insert_frags_panics_on_bad_fragments _ raw_rep_id_to_bytes 4 ab_8_4
              (mk_datafrag 8 4 0 1 []) 1%Z Hr) as (H0 & _ & _).
  destruct (C2_insert_frags_panics_on_bad_fragments _ raw_rep_id_to_bytes 4 ab_8_4
              (mk_datafrag 8 4 3 1 [Byte.x01]) 1%Z Hr) as (_ & H1 & _).
  destruct (C2_insert_frags_panics_on_bad_fragments _ raw_rep_id_to_bytes 4 ab_8_4
              (mk_datafrag 8 4 2 2 (replicate 8 Byte.x01)) 1%Z Hr) as (_ & _ & H2).
  split; [exact Hr|]. split; [apply H0; reflexivity|].
  split; [apply H1; simpl; lia | apply H2; vm_compute; lia].
Defined.

(** C2 as stated fails: fragment_starting_num 0 on [AssemblyBuffer::new(8, 4)]
    is not dropped with the buffer left as it was; the call panics. *)
Lemma C2_counterexample :
  ~ (exists ab',
       insert_frags raw_rep_id_to_bytes ab_8_4 (mk_datafrag 8 4 0 1 []) 4 1 = Some ab' /\
       buffer_bytes ab' = buffer_bytes ab_8_4 /\
       received_bitmap ab' = received_bitmap ab_8_4).
Proof. intros (ab' & H & _). vm_compute in H. discriminate. Qed.

(** ** C3: split-then-reassemble

    Claim C3 says that feeding all DATA_FRAGs of any consistently split
    payload, in any order, returns the original payload on the last
    missing fragment. Two ways of splitting a payload panic instead:
    - a payload of a single fragment (data_size 256 = fragment size): the
      first fragment group is also the last, and the 4-byte shift of
      [from_byte] after [to_before_byte] is computed makes the copy panic
      (the defect of C1);
    - the batched submessage of end-to-end scenario 4 (data_size 1000,
      fragment size 256, fragments 1..4 in one submessage): the branch
      tests only [fragment_starting_num < fragment_count], so the
      destination ends at [4 * 256 = 1024], past the 1000-byte buffer. *)
Theorem C3_reassembly_panics :
  forall (R : Type) (to_b : R -> byte * byte) (from_b : list byte -> option R)
         (rep : R) (opts : byte * byte) (v w : list byte) flags now,
  new_datafrag to_b from_b (FragmentAssembler_new 256)
    (datafrag_for rep opts 256 256 1 1 v) flags now = None /\
  new_datafrag to_b from_b (FragmentAssembler_new 256)
    (datafrag_for rep opts 1000 256 1 4 w) flags now = None.
Proof.
  intros. split.
  - eapply new_datafrag_first_panics; [reflexivity|].
    apply insert_frags_first_is_last_panics; reflexivity.
  - eapply new_datafrag_first_panics; [reflexivity|].
    apply insert_frags_past_end_panics; [simpl; lia|].
    vm_compute. lia.
Qed.

Lemma count_set_le_length bv : count_set bv <= length bv.
Proof.
  unfold count_set. induction bv as [|b bv IH]; [done|].
  rewrite filter_cons. destruct b; simpl; try case_decide; simpl; lia.
Qed.

Lemma bitvec_all_iff_count bv : bitvec_all bv = true <-> count_set bv = length bv.
Proof.
  unfold bitvec_all, count_set. induction bv as [|b bv IH]; [done|].
  rewrite filter_cons. simpl. destruct b; simpl; try case_decide; try done; simpl.
  - rewrite IH. lia.
  - split; [discriminate|]. pose proof (count_set_le_length bv).
    unfold count_set in *. lia.
Qed.

(** ** C4: the received bitmap of a buffer

    For every buffer built by [AssemblyBuffer::new] and updated by calls of
    [insert_frags] that return, the number of set bits is at most
    fragment_count, and [is_complete] holds exactly when it equals
    fragment_count. *)
Theorem C4_received_count_invariant :
  forall (R : Type) (to_b : R -> byte * byte) F ab,
  ab_reachable to_b F ab ->
  count_set (received_bitmap ab) <= fragment_count ab /\
  (is_complete ab = true <-> count_set (received_bitmap ab) = fragment_count ab).
Proof.
  intros R to_b F ab Hr. rewrite <- (ab_reachable_bitmap_length _ _ _ Hr).
  split; [apply count_set_le_length | apply bitvec_all_iff_count].
Qed.

(** The buffer [AssemblyBuffer::new(8, 4)] after both its fragments. *)
Lemma C4_received_count_invariant_witness :
  exists ab,
    ab_reachable raw_rep_id_to_bytes 4 ab /\
    count_set (received_bitmap ab) = 2 /\ is_complete ab = true.
Proof.
  pose (df1 := mk_datafrag 8 4 1 1 []).
  pose (df2 := mk_datafrag 8 4 2 1 [Byte.x01; Byte.x02; Byte.x03; Byte.x04]).
  assert (Hr0 : ab_reachable raw_rep_id_to_bytes 4 ab_8_4).
  { apply (reach_ab_new _ _ 8 0%Z). reflexivity. }
  destruct (insert_frags raw_rep_id_to_bytes ab_8_4 df1 4 1) as [ab1|] eqn:E1;
    [|vm_compute in E1; discriminate].
  destruct (insert_frags raw_rep_id_to_bytes ab1 df2 4 2) as [ab2|] eqn:E2.
  - assert (Hr : ab_reachable raw_rep_id_to_bytes 4 ab2).
    { apply (reach_ab_insert _ _ ab1 df2 2%Z); [apply (reach_ab_insert _ _ ab_8_4 df1 1%Z)|]; assumption. }
    exists ab2. split; [exact Hr|].
    destruct (C4_received_count_invariant _ _ _ _ Hr) as [_ Hc].
    vm_compute in E1. injection E1 as <-. vm_compute in E2. injection E2 as <-.
    split; [reflexivity | apply Hc; reflexivity].
  - vm_compute in E1. injection E1 as <-. vm_compute in E2. discriminate.
Defined.

(** [insert_frags] does not read [data_size]. *)
Lemma insert_frags_ignores_data_size {R} (to_b : R -> byte * byte) ab df ds F now :
  insert_frags to_b ab (datafrag_with_data_size df ds) F now = insert_frags to_b ab df F now.
Proof. reflexivity. Qed.

(** What one call of [new_datafrag] that returns leaves under the
    sequence number of its DATA_FRAG: the buffer it found (or built with
    [AssemblyBuffer::new] from the DATA_FRAG's [data_size]) after
    [insert_frags], unless the assembly completed and the entry was
    removed. *)
Lemma new_datafrag_entry {R} (to_b : R -> byte * byte) from_b fa df flags now fa' res ab' :
  new_datafrag to_b from_b fa df flags now = Some (fa', res) ->
  assembly_buffers fa' !! writer_sn df = Some ab' ->
  exists abuf,
    match assembly_buffers fa !! writer_sn df with
    | Some ab => abuf = ab
    | None => AssemblyBuffer_new (data_size df) (assembler_fragment_size fa) now = Some abuf
    end /\
    insert_frags to_b abuf df (assembler_fragment_size fa) now = Some ab'.
Proof.
  intros H Hl. unfold new_datafrag in H.
  destruct (assembly_buffers fa !! writer_sn df) as [ab|] eqn:Hfa;
    [simpl in H | destruct (AssemblyBuffer_new _ _ _) as [ab|] eqn:Hnew; [simpl in H|discriminate]];
    exists ab; (split; [done|]);
    (destruct (insert_frags _ _ _ _ _) as [ab1|] eqn:Hins; simpl in H; [|discriminate]);
    rewrite lookup_insert_eq in H;
    (destruct (is_complete ab1);
     [ pnc_inv H; destruct (from_b _); pnc_inv H; injection H as <- _;
       simpl in Hl; by rewrite lookup_delete_eq in Hl
     | injection H as <- _; simpl in Hl; rewrite lookup_insert_eq in Hl; congruence ]).
Qed.

(** ** C10: the buffer of a sequence number keeps its first sizes

    The buffer of a writer sequence number is built by
    [AssemblyBuffer::new] from the [data_size] of the first DATA_FRAG seen
    for it; while it stays in the assembler, each later call keeps its byte
    length and fragment_count, and the [data_size] of a later DATA_FRAG for
    the same sequence number is not read at all (the call does the same
    whatever [data_size] it announces). *)
Theorem C10_buffer_sizes_fixed_by_first_datafrag :
  forall (R : Type) (to_b : R -> byte * byte) (from_b : list byte -> option R)
         fa df flags now,
  (forall ab ds,
     assembly_buffers fa !! writer_sn df = Some ab ->
     new_datafrag to_b from_b fa (datafrag_with_data_size df ds) flags now =
     new_datafrag to_b from_b fa df flags now) /\
  (forall fa' res ab',
     new_datafrag to_b from_b fa df flags now = Some (fa', res) ->
     assembly_buffers fa' !! writer_sn df = Some ab' ->
     (forall ab, assembly_buffers fa !! writer_sn df = Some ab ->
        length (buffer_bytes ab') = length (buffer_bytes ab) /\
        fragment_count ab' = fragment_count ab) /\
     (assembly_buffers fa !! writer_sn df = None ->
        let F := assembler_fragment_size fa in
        length (buffer_bytes ab') = data_size df /\
        fragment_count ab' =
          data_size df / F + (if data_size df mod F =? 0 then 0 else 1))).
Proof.
  intros R to_b from_b fa df flags now. split.
  - intros ab ds Hl. unfold new_datafrag. simpl. rewrite Hl. reflexivity.
  - intros fa' res ab' H Hl'.
    destruct (new_datafrag_entry _ _ _ _ _ _ _ _ _ H Hl') as (abuf & Hab & Hins).
    destruct (insert_frags_lengths _ _ _ _ _ _ Hins) as (Hb & Hfc & _).
    split.
    + intros ab Hl. rewrite Hl in Hab. subst abuf. done.
    + intros Hl. rewrite Hl in Hab. simpl.
      unfold AssemblyBuffer_new, pnc_ret, panic in Hab.
      destruct (assembler_fragment_size fa =? 0); [discriminate|].
      injection Hab as <-. simpl in Hb, Hfc. rewrite Hb, Hfc.
      split; [apply length_replicate | reflexivity].
Qed.

(** The second DATA_FRAG of a two-fragment sample of 8 bytes announcing a
    data_size of 1000: it lands in the 8-byte buffer and completes it. *)
Lemma C10_buffer_sizes_fixed_by_first_datafrag_witness :
  exists fa1 fa2 res ab1,
    new_datafrag raw_rep_id_to_bytes raw_rep_id_from_bytes (FragmentAssembler_new 4)
      (mk_datafrag 8 4 1 1 []) [] 0 = Some (fa1, None) /\
    assembly_buffers fa1 !! 1%Z = Some ab1 /\
    new_datafrag raw_rep_id_to_bytes raw_rep_id_from_bytes fa1
      (datafrag_with_data_size (mk_datafrag 8 4 2 1 (replicate 4 Byte.x07)) 1000) [] 1
      = Some (fa2, res) /\
    new_datafrag raw_rep_id_to_bytes raw_rep_id_from_bytes fa1
      (mk_datafrag 8 4 2 1 (replicate 4 Byte.x07)) [] 1 = Some (fa2, res).
Proof.
  destruct (new_datafrag raw_rep_id_to_bytes raw_rep_id_from_bytes (FragmentAssembler_new 4)
              (mk_datafrag 8 4 1 1 []) [] 0) as [[fa1 r1]|] eqn:E1;
    [|vm_compute in E1; discriminate].
  destruct (assembly_buffers fa1 !! 1%Z) as [ab1|] eqn:Hl;
    [|vm_compute in E1; injection E1 as <- _; vm_compute in Hl; discriminate].
  destruct (C10_buffer_sizes_fixed_by_first_datafrag _ raw_rep_id_to_bytes raw_rep_id_from_bytes
              fa1 (mk_datafrag 8 4 2 1 (replicate 4 Byte.x07)) [] 1%Z) as [Hsame _].
  exists fa1. rewrite (Hsame ab1 1000 Hl).
  destruct (new_datafrag raw_rep_id_to_bytes raw_rep_id_from_bytes fa1
              (mk_datafrag 8 4 2 1 (replicate 4 Byte.x07)) [] 1) as [[fa2 res]|] eqn:E2.
  - exists fa2, res, ab1. vm_compute in E1. injection E1 as <- <-.
    split; [reflexivity | split; [exact Hl | split; reflexivity]].
  - vm_compute in E1. injection E1 as <- <-. vm_compute in E2. discriminate.
Defined.


(** ** Ordered maps *)

Section BTreeProps.
Context {V : Type}.
Implicit Types (l : list (Instant * V)) (k : Instant) (v : V).

(** [insert] finds the old value exactly where [get] looks. *)
Lemma insert_entries_old k v l : snd (BTree.insert_entries k v l) = BTree.get_entries k l.
Proof.
  induction l as [|[k' v'] l IH]; [done|]. simpl.
  destruct (Z.ltb_spec k k'), (Z.eqb_spec k k'); try lia; simpl; try done.
  destruct (BTree.insert_entries k v l) eqn:E. simpl in *. done.
Qed.

Lemma insert_entries_get k v l : BTree.get_entries k (fst (BTree.insert_entries k v l)) = Some v.
Proof.
  induction l as [|[k' v'] l IH]; simpl; [by rewrite Z.eqb_refl|].
  destruct (Z.ltb_spec k k'), (Z.eqb_spec k k'); simpl; try by rewrite Z.eqb_refl.
  destruct (BTree.insert_entries k v l) eqn:E. simpl in *.
  destruct (Z.eqb_spec k k'); [lia|]. destruct (Z.ltb_spec k k'); [lia|]. done.
Qed.

Lemma insert_entries_in k v l x :
  In x (fst (BTree.insert_entries k v l)) -> x = (k, v) \/ In x l.
Proof.
  induction l as [|[k' v'] l IH]; simpl; [intuition|].
  destruct (k <? k')%Z; [simpl; intuition|].
  destruct (k =? k')%Z; [simpl; intuition|].
  destruct (BTree.insert_entries k v l) eqn:E. simpl in *. intuition.
Qed.

Lemma insert_entries_nonempty k v l : fst (BTree.insert_entries k v l) <> [].
Proof.
  destruct l as [|[k' v'] l]; simpl; [done|].
  destruct (k <? k')%Z; [done|]. destruct (k =? k')%Z; [done|].
  destruct (BTree.insert_entries k v l); done.
Qed.

Lemma insert_entries_sorted k v l :
  StronglySorted key_lt l -> StronglySorted key_lt (fst (BTree.insert_entries k v l)).
Proof.
  induction l as [|[k' v'] l IH]; intros Hs; simpl.
  - repeat constructor.
  - inversion Hs as [|? ? Hl Hf]; subst.
    destruct (Z.ltb_spec k k').
    + constructor; [exact Hs|]. constructor; [unfold key_lt; simpl; lia|].
      eapply Forall_impl; [exact Hf|]. unfold key_lt; simpl; intros; lia.
    + destruct (Z.eqb_spec k k').
      * subst. constructor; [exact Hl|].
        eapply Forall_impl; [exact Hf|]. unfold key_lt; simpl; intros; lia.
      * pose proof (insert_entries_in k v l) as Hin.
        destruct (BTree.insert_entries k v l) as [r o] eqn:E. simpl in *.
        constructor; [by apply IH|].
        apply List.Forall_forall. intros x Hx. destruct (Hin x Hx) as [->|Hx'].
        -- unfold key_lt; simpl; lia.
        -- rewrite List.Forall_forall in Hf. by apply Hf.
Qed.

Lemma fold_push_app (r acc : list (Instant * V)) :
  fold_left (fun acc ic => acc ++ [ic]) r acc = acc ++ r.
Proof.
  revert acc. induction r as [|x r IH]; intros acc; simpl; [by rewrite app_nil_r|].
  rewrite IH, <- app_assoc. done.
Qed.

Lemma filter_none {A} (f : A -> bool) (l : list A) :
  Forall (fun x => f x = false) l -> List.filter f l = [].
Proof. induction 1 as [|x l Hx _ IH]; simpl; [done|]. by rewrite Hx. Qed.

Lemma take_le_sorted e l :
  StronglySorted key_lt l ->
  BTree.take_le e l = List.filter (fun ic => (fst ic <=? e)%Z) l.
Proof.
  induction 1 as [|[k v] l Hs IH Hf]; [done|]. simpl.
  destruct (Z.leb_spec k e); [by rewrite IH|].
  symmetry. apply filter_none. eapply Forall_impl; [exact Hf|].
  unfold key_lt; simpl. intros [k' v'] Hk; simpl in *. apply Z.leb_gt. lia.
Qed.

(** On sorted entries, the range walk is the filter on the interval. *)
Lemma range_walk_filter s e l :
  StronglySorted key_lt l ->
  BTree.take_le e (BTree.drop_lt s l) = List.filter (in_closed s e) l.
Proof.
  induction 1 as [|[k v] l Hs IH Hf]; [done|]. simpl.
  unfold in_closed at 1; simpl.
  destruct (Z.ltb_spec k s).
  - rewrite IH. destruct (Z.leb_spec s k); [lia|]. done.
  - destruct (Z.leb_spec s k); [|lia]. simpl.
    rewrite take_le_sorted by exact Hs. destruct (Z.leb_spec k e).
    + f_equal. apply List.filter_ext_in. intros [k' v'] Hin.
      rewrite List.Forall_forall in Hf. specialize (Hf _ Hin). unfold key_lt in Hf; simpl in *.
      unfold in_closed; simpl. destruct (Z.leb_spec s k'); [done|lia].
    + symmetry. apply filter_none. eapply Forall_impl; [exact Hf|].
      unfold key_lt, in_closed; simpl. intros [k' v'] Hk; simpl in *.
      apply andb_false_intro2, Z.leb_gt. lia.
Qed.

End BTreeProps.

Lemma filter_sorted {A} (R : A -> A -> Prop) (f : A -> bool) (l : list A) :
  StronglySorted R l -> StronglySorted R (List.filter f l).
Proof.
  induction 1 as [|x l Hs IH Hf]; simpl; [constructor|].
  destruct (f x); [|exact IH]. constructor; [exact IH|].
  apply List.Forall_forall. intros y Hy. apply List.filter_In in Hy as [Hy _].
  rewrite List.Forall_forall in Hf. by apply Hf.
Qed.

(** A sorted map filtered on [[t1, t2]] ends with the entry of [t2]. *)
Lemma filter_closed_last {V} (l : list (Instant * V)) t1 t2 c2 :
  StronglySorted key_lt l -> In (t2, c2) l -> (t1 <= t2)%Z ->
  exists mid, List.filter (in_closed t1 t2) l = mid ++ [(t2, c2)].
Proof.
  induction 1 as [|[k v] l Hs IH Hf]; intros Hin Hle; [done|].
  destruct Hin as [[= -> ->]|Hin].
  - exists []. simpl. unfold in_closed at 1; simpl.
    destruct (Z.leb_spec t1 t2); [|lia]. rewrite Z.leb_refl. simpl.
    rewrite filter_none; [done|]. eapply Forall_impl; [exact Hf|].
    unfold key_lt, in_closed; simpl. intros [k' v'] Hk; simpl in *.
    apply andb_false_intro2, Z.leb_gt. lia.
  - destruct (IH Hin Hle) as [mid Hmid]. simpl. rewrite Hmid.
    destruct (in_closed t1 t2 (k, v)); [by exists ((k, v) :: mid) | by exists mid].
Qed.

(** A sorted map filtered on [[t1, t2]] is the entry of [t1], then the
    entries strictly between, then the entry of [t2]. *)
Lemma filter_closed_ends {V} (l : list (Instant * V)) t1 c1 t2 c2 :
  StronglySorted key_lt l -> In (t1, c1) l -> In (t2, c2) l -> (t1 < t2)%Z ->
  exists mid, List.filter (in_closed t1 t2) l = (t1, c1) :: mid ++ [(t2, c2)].
Proof.
  induction 1 as [|[k v] l Hs IH Hf]; intros Hin1 Hin2 Hlt; [done|].
  rewrite List.Forall_forall in Hf.
  destruct Hin1 as [[= -> ->]|Hin1].
  - destruct Hin2 as [[= Ht _]|Hin2]; [lia|].
    destruct (filter_closed_last l t1 t2 c2 Hs Hin2 ltac:(lia)) as [mid Hmid].
    exists mid. simpl. unfold in_closed at 1; simpl.
    rewrite Z.leb_refl. destruct (Z.leb_spec t1 t2); [|lia]. simpl. by rewrite Hmid.
  - pose proof (Hf _ Hin1) as Hk. unfold key_lt in Hk; simpl in Hk.
    destruct Hin2 as [[= Ht _]|Hin2]; [lia|].
    destruct (IH Hin1 Hin2 Hlt) as [mid Hmid]. exists mid. simpl.
    unfold in_closed at 1; simpl. destruct (Z.leb_spec t1 k); [lia|]. exact Hmid.
Qed.

(** ** The history cache *)

Lemma hc_add_change_wf {C} (h : DDSHistoryCache (CacheChange := C)) i c h' :
  hc_wf h -> hc_add_change h i c = Some h' -> hc_wf h'.
Proof.
  intros [Hs _] H. unfold hc_add_change, BTree.insert in H.
  destruct (BTree.insert_entries i c (BTree.entries (changes h))) as [l o] eqn:E.
  destruct o; [discriminate|]. injection H as <-. unfold hc_wf; simpl.
  pose proof (insert_entries_sorted i c _ Hs) as Hs'.
  pose proof (insert_entries_nonempty i c (BTree.entries (changes h))) as Hne.
  rewrite E in Hs', Hne. simpl in *. split; [exact Hs'|]. split; [intros; exact Hne | done].
Qed.

Lemma cache_reachable_wf {C Q} (qos_none : Q) (c : DDSCache (CacheChange := C)) :
  cache_reachable qos_none c ->
  forall n tc, topic_caches c !! n = Some tc -> hc_wf (history_cache tc).
Proof.
  induction 1 as [| c n k tn _ IH | c n _ IH | c n q _ IH | c n i cc c' _ IH Hadd];
    intros n' tc Hl.
  - unfold DDSCache_new in Hl; simpl in Hl. by rewrite lookup_empty in Hl.
  - unfold add_new_topic in Hl. destruct (topic_caches c !! n) eqn:E; simpl in Hl.
    + by apply (IH n').
    + destruct (decide (n = n')) as [<-|Hne].
      * rewrite lookup_insert_eq in Hl. injection Hl as <-.
        unfold hc_wf; simpl. split; [constructor|]. split; [discriminate|done].
      * rewrite lookup_insert_ne in Hl by done. by apply (IH n').
  - unfold remove_topic in Hl. destruct (topic_caches c !! n) eqn:E; simpl in Hl.
    + destruct (decide (n = n')) as [<-|Hne].
      * by rewrite lookup_delete_eq in Hl.
      * rewrite lookup_delete_ne in Hl by done. by apply (IH n').
    + by apply (IH n').
  - unfold write_topic_qos_mut in Hl. destruct (topic_caches c !! n) as [tc0|] eqn:E; simpl in Hl.
    + destruct (decide (n = n')) as [<-|Hne].
      * rewrite lookup_insert_eq in Hl. injection Hl as <-. simpl. by apply (IH n).
      * rewrite lookup_insert_ne in Hl by done. by apply (IH n').
    + by apply (IH n').
  - unfold to_topic_add_change in Hadd. destruct (topic_caches c !! n) as [tc0|] eqn:E.
    + unfold tc_add_change in Hadd.
      destruct (hc_add_change (history_cache tc0) i cc) as [h'|] eqn:Eh; simpl in Hadd;
        [|discriminate].
      injection Hadd as <-. simpl in Hl.
      destruct (decide (n = n')) as [<-|Hne].
      * rewrite lookup_insert_eq in Hl. injection Hl as <-. simpl.
        eapply hc_add_change_wf; [apply (IH n); exact E | exact Eh].
      * rewrite lookup_insert_ne in Hl by done. by apply (IH n').
    + injection Hadd as <-. by apply (IH n').
Qed.

(** ** C5: range queries

    For every cache the operations of [DDSCache] build, every topic and
    every [start <= end], [from_topic_get_changes_in_range] returns the
    topic's entries whose instant lies in [[start, end]], in ascending
    instant order; for two entries at [t1 < t2], the query over [[t1, t2]]
    returns the one at [t1] first and the one at [t2] last. *)
Theorem C5_range_query_closed_ascending :
  forall (C Q : Type) (qos_none : Q) (c : DDSCache (CacheChange := C) (QosPolicies := Q))
         n s e,
  cache_reachable qos_none c -> (s <= e)%Z ->
  from_topic_get_changes_in_range c n s e =
    Some (List.filter (in_closed s e) (topic_entries c n)) /\
  StronglySorted key_lt (List.filter (in_closed s e) (topic_entries c n)) /\
  (forall t1 c1 t2 c2,
     In (t1, c1) (topic_entries c n) -> In (t2, c2) (topic_entries c n) -> (t1 < t2)%Z ->
     exists mid,
       from_topic_get_changes_in_range c n t1 t2 = Some ((t1, c1) :: mid ++ [(t2, c2)])).
Proof.
  intros C Q qos_none c n s e Hr Hse.
  assert (Hrange : forall s e, (s <= e)%Z ->
            from_topic_get_changes_in_range c n s e =
            Some (List.filter (in_closed s e) (topic_entries c n))).
  { intros s' e' Hle. unfold from_topic_get_changes_in_range, topic_entries.
    destruct (topic_caches c !! n) as [tc|] eqn:E; [|done].
    destruct (cache_reachable_wf qos_none c Hr n tc E) as [Hs Hroot].
    unfold get_range_of_changes_vec, BTree.range_incl.
    destruct (BTree.root (changes (history_cache tc))) eqn:Ert.
    - destruct (Z.ltb_spec e' s'); [lia|]. simpl.
      rewrite fold_push_app. simpl. f_equal. by apply range_walk_filter.
    - simpl. destruct (BTree.entries (changes (history_cache tc))) eqn:En; [done|].
      exfalso. assert (false = true) as Hf by (apply Hroot; done). discriminate. }
  assert (Hs : StronglySorted key_lt (topic_entries c n)).
  { unfold topic_entries. destruct (topic_caches c !! n) as [tc|] eqn:E; [|constructor].
    exact (proj1 (cache_reachable_wf qos_none c Hr n tc E)). }
  split; [by apply Hrange|]. split; [by apply filter_sorted|].
  intros t1 c1 t2 c2 H1 H2 Hlt. rewrite Hrange by lia.
  destruct (filter_closed_ends _ t1 c1 t2 c2 Hs H1 H2 Hlt) as [mid Hmid].
  exists mid. by rewrite Hmid.
Qed.

(** Scenario 6 on topic ["t"]: changes at instants 1, 2 and 3; the query
    over [[1, 3]] returns the three of them in order. *)
Lemma C5_range_query_closed_ascending_witness :
  exists c, cache_reachable tt c /\
    from_topic_get_changes_in_range c "t"%string 1%Z 3%Z = Some [(1%Z, 10); (2%Z, 20); (3%Z, 30)].
Proof.
  assert (H0 : cache_reachable tt cache_t) by (apply reach_add_new_topic, reach_cache_new).
  destruct (to_topic_add_change cache_t "t"%string 1%Z 10) as [c1|] eqn:E1;
    [|vm_compute in E1; discriminate].
  destruct (to_topic_add_change c1 "t"%string 2%Z 20) as [c2|] eqn:E2;
    [|vm_compute in E1; injection E1 as <-; vm_compute in E2; discriminate].
  destruct (to_topic_add_change c2 "t"%string 3%Z 30) as [c3|] eqn:E3;
    [|vm_compute in E1; injection E1 as <-; vm_compute in E2; injection E2 as <-;
      vm_compute in E3; discriminate].
  assert (Hr : cache_reachable tt c3).
  { eapply reach_add_change; [eapply reach_add_change; [eapply reach_add_change|]|];
      eassumption. }
  exists c3. split; [exact Hr|].
  destruct (C5_range_query_closed_ascending _ _ tt c3 "t"%string 1%Z 3%Z Hr ltac:(lia)) as [-> _].
  vm_compute in E1. injection E1 as <-. vm_compute in E2. injection E2 as <-.
  vm_compute in E3. injection E3 as <-. reflexivity.
Defined.

(** ** C6: inserting into the history cache

    [DDSHistoryCache::add_change] inserts a change under a new instant
    (after which [get_change] returns it) and panics when the instant is
    already a key. *)
Theorem C6_add_change_insert_or_panic :
  forall (C : Type) (h : DDSHistoryCache (CacheChange := C)) instant c,
  (hc_get_change h instant = None ->
   exists h', hc_add_change h instant c = Some h' /\ hc_get_change h' instant = Some c) /\
  (forall c0, hc_get_change h instant = Some c0 -> hc_add_change h instant c = None).
Proof.
  intros C h instant c. unfold hc_get_change, hc_add_change, BTree.insert, BTree.get.
  pose proof (insert_entries_old instant c (BTree.entries (changes h))) as Hold.
  pose proof (insert_entries_get instant c (BTree.entries (changes h))) as Hget.
  destruct (BTree.insert_entries instant c (BTree.entries (changes h))) as [l o].
  simpl in *. rewrite <- Hold. split.
  - intros ->. eexists. split; [reflexivity|]. exact Hget.
  - intros c0 ->. reflexivity.
Qed.

(** An empty history cache takes a change at instant 5, then refuses a
    second one at the same instant. *)
Lemma C6_add_change_insert_or_panic_witness :
  exists h,
    hc_add_change (DDSHistoryCache_new (CacheChange := nat)) 5%Z 1 = Some h /\
    hc_get_change h 5%Z = Some 1 /\ hc_add_change h 5%Z 2 = None.
Proof.
  destruct (C6_add_change_insert_or_panic nat DDSHistoryCache_new 5%Z 1) as [Hnew _].
  destruct (Hnew eq_refl) as (h & Hadd & Hget).
  exists h. split; [exact Hadd|]. split; [exact Hget|].
  exact (proj2 (C6_add_change_insert_or_panic nat h 5%Z 2) 1 Hget).
Defined.

(** ** C7: unknown topics

    For a topic name the cache does not hold, [to_topic_add_change] leaves
    the cache as it is, [from_topic_get_change] and [get_topic_qos] return
    [None] and the range query returns an empty vector, whatever its
    bounds; none of them panics. *)
Theorem C7_unknown_topic_noop :
  forall (C Q : Type) (c : DDSCache (CacheChange := C) (QosPolicies := Q)) n instant cc s e,
  topic_caches c !! n = None ->
  to_topic_add_change c n instant cc = Some c /\
  from_topic_get_change c n instant = None /\
  get_topic_qos c n = None /\
  from_topic_get_changes_in_range c n s e = Some [].
Proof.
  intros C Q c n instant cc s e Hn.
  unfold to_topic_add_change, from_topic_get_change, get_topic_qos,
    from_topic_get_changes_in_range.
  rewrite Hn. done.
Qed.

Lemma C7_unknown_topic_noop_witness :
  topic_caches cache_t !! "u"%string = None /\
  to_topic_add_change cache_t "u"%string 1%Z 7 = Some cache_t /\
  from_topic_get_changes_in_range cache_t "u"%string 3%Z 1%Z = Some [].
Proof.
  assert (Hn : topic_caches cache_t !! "u"%string = None) by reflexivity.
  destruct (C7_unknown_topic_noop _ _ cache_t "u"%string 1%Z 7 3%Z 1%Z Hn)
    as (Hadd & _ & _ & Hrange).
  split; [exact Hn|]. split; [exact Hadd | exact Hrange].
Defined.

(** ** C8: adding a topic

    [add_new_topic] on a new name returns [true] and maps the name to a
    fresh [TopicCache] with [QosPolicies::qos_none()] and no change; on a
    name already present it returns [false] and leaves the cache, and so
    the topic's changes and QoS, as they were. *)
Theorem C8_add_new_topic :
  forall (C Q : Type) (qos_none : Q) (c : DDSCache (CacheChange := C) (QosPolicies := Q))
         n k tn,
  (topic_caches c !! n = None ->
   add_new_topic qos_none c n k tn =
     ({| topic_caches := <[n := TopicCache_new qos_none k tn]> (topic_caches c) |}, true) /\
   get_topic_qos (fst (add_new_topic qos_none c n k tn)) n = Some qos_none /\
   topic_entries (fst (add_new_topic qos_none c n k tn)) n = []) /\
  (forall tc, topic_caches c !! n = Some tc -> add_new_topic qos_none c n k tn = (c, false)).
Proof.
  intros C Q qos_none c n k tn. unfold add_new_topic. split.
  - intros Hn. rewrite Hn. split; [done|].
    unfold get_topic_qos, topic_entries; simpl. rewrite lookup_insert_eq. done.
  - intros tc Hn. by rewrite Hn.
Qed.

Lemma C8_add_new_topic_witness :
  add_new_topic tt DDSCache_new "t"%string WITH_KEY "T"%string = (cache_t, true) /\
  add_new_topic tt cache_t "t"%string NO_KEY "U"%string = (cache_t, false).
Proof.
  destruct (C8_add_new_topic nat unit tt DDSCache_new "t"%string WITH_KEY "T"%string)
    as [Hnew _].
  destruct (C8_add_new_topic nat unit tt cache_t "t"%string NO_KEY "U"%string)
    as [_ Hdup].
  split.
  - rewrite (proj1 (Hnew eq_refl)). reflexivity.
  - exact (Hdup _ eq_refl).
Defined.

(** ** C9: inverted range bounds

    Claim C9 says that for an existing topic a range query with
    [start_instant > end_instant] panics. [BTreeMap::range] runs its bound
    check only when the map has a root node, which a history cache gets
    with its first change: for a topic holding at least one change the
    query panics, for a topic with no change yet it returns an empty
    vector. *)
Theorem C9_inverted_range_panics_on_nonempty_topic :
  forall (C Q : Type) (qos_none : Q) (c : DDSCache (CacheChange := C) (QosPolicies := Q))
         n tc s e,
  cache_reachable qos_none c -> topic_caches c !! n = Some tc -> (e < s)%Z ->
  (topic_entries c n <> [] -> from_topic_get_changes_in_range c n s e = None) /\
  (topic_entries c n = [] -> from_topic_get_changes_in_range c n s e = Some []).
Proof.
  intros C Q qos_none c n tc s e Hr Hn Hes.
  destruct (cache_reachable_wf qos_none c Hr n tc Hn) as [_ Hroot].
  unfold topic_entries, from_topic_get_changes_in_range, get_range_of_changes_vec,
    BTree.range_incl. rewrite Hn. split.
  - intros Hne. apply Hroot in Hne. rewrite Hne.
    destruct (Z.ltb_spec e s); [done|lia].
  - intros Hemp. destruct (BTree.root (changes (history_cache tc))) eqn:Ert.
    + exfalso. by apply Hroot.
    + done.
Qed.

(** Topic ["t"] with a change at instant 5 panics on the bounds [(9, 1)];
    topic ["t"] with no change returns an empty vector on them. *)
Lemma C9_inverted_range_panics_on_nonempty_topic_witness :
  exists c,
    cache_reachable tt c /\
    to_topic_add_change cache_t "t"%string 5%Z 42 = Some c /\
    from_topic_get_changes_in_range c "t"%string 9%Z 1%Z = None /\
    from_topic_get_changes_in_range cache_t "t"%string 9%Z 1%Z = Some [].
Proof.
  assert (H0 : cache_reachable tt cache_t) by (apply reach_add_new_topic, reach_cache_new).
  destruct (to_topic_add_change cache_t "t"%string 5%Z 42) as [c|] eqn:E;
    [|vm_compute in E; discriminate].
  assert (Hr : cache_reachable tt c) by (eapply reach_add_change; eassumption).
  destruct (topic_caches c !! "t"%string) as [tc|] eqn:Hl;
    [|vm_compute in E; injection E as <-; vm_compute in Hl; discriminate].
  destruct (topic_caches cache_t !! "t"%string) as [tc0|] eqn:Hl0;
    [|vm_compute in Hl0; discriminate].
  destruct (C9_inverted_range_panics_on_nonempty_topic _ _ tt c "t"%string tc 9%Z 1%Z
              Hr Hl ltac:(lia)) as [Hpanic _].
  destruct (C9_inverted_range_panics_on_nonempty_topic _ _ tt cache_t "t"%string tc0 9%Z 1%Z
              H0 Hl0 ltac:(lia)) as [_ Hempty].
  exists c. split; [exact Hr|]. split; [reflexivity|]. split.
  - apply Hpanic. vm_compute in E. injection E as <-. discriminate.
  - apply Hempty. reflexivity.
Defined.

(** C9 as stated fails: topic ["t"] exists in [cache_t], and the query
    with [start_instant = 1 > end_instant = 0] returns an empty vector. *)
Lemma C9_counterexample :
  is_Some (topic_caches cache_t !! "t"%string) /\
  from_topic_get_changes_in_range cache_t "t"%string 1%Z 0%Z = Some [].
Proof. split; [eexists; reflexivity | reflexivity]. Qed.

(* ================================================================== *)
(** * Further properties of the assembler *)

Lemma slice_copy_ok buf from to src :
  from <= to -> to <= length buf -> length src = to - from ->
  slice_copy buf from to src = Some (take from buf ++ src ++ drop to buf).
Proof.
  intros H1 H2 H3. unfold slice_copy.
  rewrite (proj2 (Nat.leb_le _ _) H1), (proj2 (Nat.leb_le _ _) H2), H3, Nat.eqb_refl.
  reflexivity.
Qed.

(** After [buf[from..to].copy_from_slice(src)], byte [j] comes from
    [src] inside the range and is unchanged outside it. *)
Lemma slice_copy_lookup buf from to src buf' j :
  slice_copy buf from to src = Some buf' ->
  buf' !! j = if decide (from <= j < to) then src !! (j - from) else buf !! j.
Proof.
  unfold slice_copy, pnc_ret, panic.
  destruct (from <=? to) eqn:E1, (to <=? length buf) eqn:E2; simpl; try discriminate.
  destruct (length src =? to - from) eqn:E3; [|discriminate].
  intros [= <-]. apply Nat.leb_le in E1, E2. apply Nat.eqb_eq in E3.
  case_decide.
  - rewrite lookup_app_r; rewrite length_take, Nat.min_l by lia; [|lia].
    rewrite lookup_app_l by lia. reflexivity.
  - destruct (Nat.lt_ge_cases j from).
    + rewrite lookup_app_l by (rewrite length_take; lia). by apply lookup_take_lt.
    + rewrite lookup_app_r; rewrite length_take, Nat.min_l by lia; [|lia].
      rewrite lookup_app_r by lia. rewrite lookup_drop. f_equal. lia.
Qed.

Lemma slice_copy_some buf from to src :
  from <= to -> to <= length buf -> length src = to - from ->
  exists buf', slice_copy buf from to src = Some buf'.
Proof. intros. eexists. by apply slice_copy_ok. Qed.

Lemma bitvec_set_ok bv i b :
  i < length bv -> bitvec_set bv i b = Some (<[i:=b]> bv).
Proof. intros H. unfold bitvec_set. by rewrite (proj2 (Nat.ltb_lt _ _) H). Qed.

Lemma div_range F j i : 0 < F -> (j / F = i <-> i * F <= j < i * F + F).
Proof.
  intros HF. split.
  - intros <-. pose proof (Nat.div_mod j F ltac:(lia)).
    pose proof (Nat.mod_upper_bound j F ltac:(lia)). lia.
  - intros H. symmetry. apply (Nat.div_unique j F i (j - i * F)); lia.
Qed.

Lemma lookup_nth {A} (l : list A) j d : j < length l -> l !! j = Some (nth j l d).
Proof.
  revert j. induction l as [|x l IH]; intros [|j] Hj; simpl in *; try lia; [done|].
  apply IH. lia.
Qed.

(** ** Reassembly of a sample sent one fragment per submessage *)

Section Reassembly.

Context {R : Type} (to_b : R -> byte * byte) (from_b : list byte -> option R).
Context (rep : R) (sn : SequenceNumber) (F : nat) (full : list byte).
Context (flags : list DATAFRAG_Flags) (now : Z).

(** The fragment size leaves room for the 4 header bytes in fragment 0. *)
Hypothesis HF : 4 <= F.
(** The sample needs more than one fragment. *)
Hypothesis Hds : F < length full.
(** The identifier sent encodes to the first two bytes of the sample. *)
Hypothesis Hrep : to_b rep = (nth 0 full Byte.x00, nth 1 full Byte.x00).

Local Abbreviation ds := (length full).
Local Abbreviation fc := (fragment_count_of (length full) F).
Local Abbreviation frag := (split_fragment rep sn F full).
(** What the completing call returns: nothing when the receiver does not
    recognise the identifier bytes [full[0..2]], else the sample. *)
Local Abbreviation result :=
  (option_map (fun r' =>
     if flags_contains flags Key
     then DDSData_new_disposed_by_key NOT_ALIVE_DISPOSED (SerializedPayload_new r' (drop 4 full))
     else DDSData_new (SerializedPayload_new r' (drop 4 full)))
   (from_b (take 2 full))).

Lemma fc_bounds : 2 <= fc /\ (fc - 1) * F < ds /\ ds <= fc * F.
Proof.
  unfold fragment_count_of.
  pose proof (Nat.div_mod ds F ltac:(lia)).
  pose proof (Nat.mod_upper_bound ds F ltac:(lia)).
  destruct (ds mod F =? 0) eqn:E.
  - apply Nat.eqb_eq in E. rewrite E in *. nia.
  - apply Nat.eqb_neq in E. nia.
Qed.

Lemma fc_index j : j < ds -> j / F < fc.
Proof.
  intros Hj. destruct fc_bounds as (_ & _ & H).
  pose proof (proj1 (div_range F j (j / F) ltac:(lia)) eq_refl). nia.
Qed.

Lemma reassembly_inv_new ab :
  AssemblyBuffer_new ds F now = Some ab -> reassembly_inv F full ab [].
Proof.
  unfold AssemblyBuffer_new. destruct (F =? 0) eqn:E; [apply Nat.eqb_eq in E; lia|].
  intros [= <-]. unfold reassembly_inv; simpl.
  split; [apply length_replicate|]. split; [reflexivity|].
  split; [apply length_replicate|]. split.
  - intros i Hi. unfold bitvec_from_elem. rewrite lookup_replicate_2 by exact Hi.
    f_equal; symmetry; apply bool_decide_eq_false; apply not_elem_of_nil.
  - intros j _ Hj. by apply not_elem_of_nil in Hj.
Qed.

Lemma reassembly_complete ab S :
  reassembly_inv F full ab S ->
  (is_complete ab = true <-> forall k, k < fc -> k ∈ S).
Proof.
  intros (Hb & Hfc & Hl & Hbits & _). unfold is_complete, bitvec_all.
  rewrite forallb_forall. split.
  - intros H k Hk. rewrite <- Hfc in Hk. specialize (Hbits k Hk).
    apply list_elem_of_lookup_2, list_elem_of_In, H in Hbits.
    by apply bool_decide_eq_true in Hbits.
  - intros H b Hin. apply list_elem_of_In, list_elem_of_lookup_1 in Hin as [k Hk].
    pose proof (lookup_lt_Some _ _ _ Hk) as Hlt. rewrite Hl in Hlt.
    rewrite Hbits in Hk by exact Hlt. injection Hk as <-.
    apply bool_decide_eq_true. apply H. lia.
Qed.

Lemma reassembly_full_bytes ab S :
  reassembly_inv F full ab S -> (forall k, k < fc -> k ∈ S) -> buffer_bytes ab = full.
Proof.
  intros (Hb & _ & _ & _ & Hbytes) Hall. apply list_eq. intros j.
  destruct (Nat.lt_ge_cases j ds).
  - apply Hbytes; [done|]. by apply Hall, fc_index.
  - rewrite !lookup_ge_None_2 by lia. reflexivity.
Qed.

(** Inserting fragment [i] of [full] into a buffer holding the fragments
    [S] succeeds and gives a buffer holding [i :: S]. *)
Lemma reassembly_insert ab S i :
  reassembly_inv F full ab S -> i < fc ->
  exists ab', insert_frags to_b ab (frag i) F now = Some ab' /\
              reassembly_inv F full ab' (i :: S).
Proof.
  intros (Hb & Hfc & Hl & Hbits & Hbytes) Hi.
  destruct fc_bounds as (Hfc2 & Hlast & Hcover).
  unfold insert_frags, usize_sub. simpl.
  assert (Hbm : i < length (received_bitmap ab)) by lia.
  destruct (decide (i = 0)) as [->|Hi0].
  - (* fragment 0: header bytes, then [full[4..F]] *)
    simpl. rewrite Hfc, (proj2 (Nat.ltb_lt 1 fc) ltac:(lia)), Hrep. simpl.
    destruct (slice_copy_some (buffer_bytes ab) 0 2
                [nth 0 full Byte.x00; nth 1 full Byte.x00]) as [b1 E1]; [simpl; lia..|].
    rewrite E1. simpl.
    assert (L1 : length b1 = ds) by (rewrite <- Hb; exact (slice_copy_length _ _ _ _ _ E1)).
    destruct (slice_copy_some b1 2 4
                [nth 2 full Byte.x00; nth 3 full Byte.x00]) as [b2 E2]; [simpl; lia..|].
    rewrite E2. simpl.
    assert (L2 : length b2 = ds) by (rewrite <- L1; exact (slice_copy_length _ _ _ _ _ E2)).
    assert (Lv : length (sublist 4 F full) = F - 4)
      by (unfold sublist; rewrite length_take, length_drop; lia).
    destruct (slice_copy_some b2 4 (F + 0) (sublist 4 F full)) as [b3 E3];
      [simpl; lia..|].
    rewrite E3. simpl. rewrite bitvec_set_ok by exact Hbm. simpl.
    eexists; split; [reflexivity|].
    split; [rewrite <- L2; exact (slice_copy_length _ _ _ _ _ E3)|].
    split; [reflexivity|]. split; [simpl; rewrite length_insert; lia|]. split.
    + intros k Hk. simpl in Hk. destruct (decide (k = 0)) as [->|Hk0]; simpl.
      * rewrite list_lookup_insert_eq by lia. f_equal; symmetry;
        apply bool_decide_eq_true; apply elem_of_cons; by left.
      * rewrite list_lookup_insert_ne by congruence. rewrite Hbits by lia.
        f_equal. apply bool_decide_ext. rewrite elem_of_cons. intuition.
    + intros j Hj HjS. simpl.
      rewrite (slice_copy_lookup _ _ _ _ _ j E3), (slice_copy_lookup _ _ _ _ _ j E2),
        (slice_copy_lookup _ _ _ _ _ j E1).
      case_decide; [|case_decide; [|case_decide]].
      * unfold sublist. rewrite lookup_take_lt by lia. rewrite lookup_drop. f_equal. lia.
      * assert (j = 2 \/ j = 3) as [-> | ->] by lia; simpl; symmetry; apply lookup_nth; lia.
      * assert (j = 0 \/ j = 1) as [-> | ->] by lia; simpl; symmetry; apply lookup_nth; lia.
      * apply Hbytes; [done|]. apply elem_of_cons in HjS as [Hj0|]; [|done].
        apply (div_range F j 0) in Hj0; lia.
  - (* fragment i > 0: [full[i*F..(i+1)*F]] at [i*F] *)
    rewrite !Nat.sub_0_r, (proj2 (Nat.eqb_neq i 0) Hi0). simpl. rewrite Hfc.
    set (v := sublist (i * F) ((i + 1) * F) full).
    assert (Lv : length v = Nat.min F (ds - i * F))
      by (unfold v, sublist; rewrite length_take, length_drop; f_equal; lia).
    set (to := if Datatypes.S i <? fc then i * F + (F + 0) else i * F + length v).
    assert (Hto : i * F <= to <= i * F + F /\ to <= ds /\ (forall j, j < ds -> j < i * F + F -> j < to)
                  /\ length v = to - i * F).
    { unfold to. destruct (Datatypes.S i <? fc) eqn:E.
      - apply Nat.ltb_lt in E.
        assert ((i + 1) * F <= (fc - 1) * F) by (apply Nat.mul_le_mono_r; lia).
        split; [lia|]. split; [lia|]. split; [intros; lia|]. lia.
      - apply Nat.ltb_ge in E. assert (i = fc - 1) as -> by lia.
        split; [lia|]. split; [lia|]. split; [intros; lia|]. lia. }
    destruct Hto as (Hto1 & Hto2 & Hto3 & Hto4).
    assert (E3 : slice_copy (buffer_bytes ab) (i * F + 0) to v
                 = Some (take (i * F + 0) (buffer_bytes ab) ++ v ++ drop to (buffer_bytes ab)))
      by (apply slice_copy_ok; lia).
    rewrite E3. simpl. rewrite bitvec_set_ok by exact Hbm. simpl.
    eexists; split; [reflexivity|].
    split; [rewrite <- Hb; exact (slice_copy_length _ _ _ _ _ E3)|].
    split; [reflexivity|]. split; [simpl; rewrite length_insert; lia|]. split.
    + intros k Hk. simpl in Hk. destruct (decide (k = i)) as [->|Hki]; simpl.
      * rewrite list_lookup_insert_eq by lia. f_equal; symmetry;
        apply bool_decide_eq_true; apply elem_of_cons; by left.
      * rewrite list_lookup_insert_ne by congruence. rewrite Hbits by lia.
        f_equal. apply bool_decide_ext. rewrite elem_of_cons. intuition.
    + intros j Hj HjS. simpl. rewrite (slice_copy_lookup _ _ _ _ _ j E3).
      case_decide.
      * unfold v, sublist. rewrite lookup_take_lt by lia. rewrite lookup_drop. f_equal. lia.
      * apply Hbytes; [done|]. apply elem_of_cons in HjS as [Hji|]; [|done].
        apply (div_range F j i) in Hji; [|lia]. specialize (Hto3 j Hj). lia.
Qed.

(** One [new_datafrag] call with fragment [i]: the entry of [sn] (absent
    when nothing was received yet) gains fragment [i]; on completion the
    entry is removed and the sample returned. *)
Lemma reassembly_new_datafrag m S i :
  match m !! sn with Some ab => reassembly_inv F full ab S | None => S = [] end ->
  i < fc ->
  exists ab', reassembly_inv F full ab' (i :: S) /\
    new_datafrag to_b from_b {| assembler_fragment_size := F; assembly_buffers := m |}
      (frag i) flags now =
    Some (if is_complete ab'
          then ({| assembler_fragment_size := F; assembly_buffers := delete sn m |}, result)
          else ({| assembler_fragment_size := F; assembly_buffers := <[sn:=ab']> m |}, None)).
Proof.
  intros Hm Hi.
  assert (Hab : exists ab,
    match m !! sn with
    | Some ab => pnc_ret ab
    | None => AssemblyBuffer_new (data_size (frag i)) F now
    end = Some ab /\ reassembly_inv F full ab S).
  { destruct (m !! sn) as [ab|]; [by exists ab|]. subst S. simpl.
    unfold AssemblyBuffer_new. destruct (F =? 0) eqn:E; [apply Nat.eqb_eq in E; lia|].
    eexists; split; [reflexivity|]. apply reassembly_inv_new.
    unfold AssemblyBuffer_new. by rewrite E. }
  destruct Hab as (ab & Eab & Hinv).
  destruct (reassembly_insert ab S i Hinv Hi) as (ab' & Eins & Hinv').
  exists ab'. split; [done|].
  unfold new_datafrag. simpl in Eab |- *. rewrite Eab. simpl. rewrite Eins. simpl.
  rewrite lookup_insert_eq.
  destruct (is_complete ab') eqn:Ec; [|reflexivity].
  rewrite (reassembly_full_bytes ab' (i :: S) Hinv'
             (proj1 (reassembly_complete ab' (i :: S) Hinv') Ec)).
  unfold slice_range, slice_from.
  rewrite (proj2 (Nat.leb_le 2 ds) ltac:(lia)), (proj2 (Nat.leb_le 4 ds) ltac:(lia)).
  cbn -[take drop]. rewrite drop_0, delete_insert_eq.
  destruct (from_b (take 2 full)); [|reflexivity]. cbn -[take drop].
  by destruct (flags_contains flags Key).
Qed.

Lemma feed_cons df dfs m :
  feed to_b from_b {| assembler_fragment_size := F; assembly_buffers := m |} (df :: dfs) flags now =
  let! r1 := new_datafrag to_b from_b
               {| assembler_fragment_size := F; assembly_buffers := m |} df flags now in
  let! r2 := feed to_b from_b (fst r1) dfs flags now in
  pnc_ret (fst r2, snd r1 :: snd r2).
Proof. reflexivity. Qed.

(** Feeding the fragments [rest] that are still missing, in any order. *)
Lemma reassembly_feed m S rest :
  match m !! sn with Some ab => reassembly_inv F full ab S | None => S = [] end ->
  Permutation (S ++ rest) (seq 0 fc) -> rest <> [] ->
  feed to_b from_b {| assembler_fragment_size := F; assembly_buffers := m |}
    (map frag rest) flags now =
  Some ({| assembler_fragment_size := F; assembly_buffers := delete sn m |},
        replicate (length rest - 1) None ++ [result]).
Proof.
  revert m S. induction rest as [|i rest IH]; intros m S Hm Hperm Hne; [done|].
  assert (Hi : i < fc).
  { assert (Hin : In i (seq 0 fc))
      by (eapply Permutation_in; [exact Hperm|]; apply in_or_app; right; left; done).
    apply in_seq in Hin. lia. }
  destruct (reassembly_new_datafrag m S i Hm Hi) as (ab' & Hinv' & E).
  cbn [map]. rewrite feed_cons, E.
  assert (Hnd : NoDup (S ++ i :: rest))
    by (rewrite Hperm; apply NoDup_seq).
  destruct rest as [|k rest'].
  - assert (Hc : is_complete ab' = true).
    { apply (reassembly_complete ab' (i :: S) Hinv'). intros k Hk.
      assert (Hin : In k (S ++ [i]))
        by (eapply Permutation_in; [symmetry; exact Hperm|]; apply in_seq; lia).
      apply elem_of_cons. apply in_app_or in Hin as [Hin|[<-|[]]].
      - right. by apply list_elem_of_In.
      - by left. }
    rewrite Hc. reflexivity.
  - assert (Hc : is_complete ab' = false).
    { destruct (is_complete ab') eqn:Ec; [|done]. exfalso.
      assert (Hk : k < fc).
      { assert (Hin : In k (seq 0 fc))
          by (eapply Permutation_in; [exact Hperm|]; apply in_or_app; right; right; left; done).
        apply in_seq in Hin. lia. }
      pose proof (proj1 (reassembly_complete ab' (i :: S) Hinv') Ec k Hk) as HkS.
      apply NoDup_app in Hnd as (_ & Hdis & Hnd2). apply NoDup_cons in Hnd2 as (Hik & _).
      apply elem_of_cons in HkS as [->|HkS].
      + apply Hik. apply elem_of_cons. by left.
      + apply (Hdis k HkS). apply elem_of_cons. right. apply elem_of_cons. by left. }
    rewrite Hc. cbn [pnc_bind fst snd].
    rewrite (IH (<[sn:=ab']> m) (i :: S)).
    + rewrite delete_insert_eq. simpl. rewrite Nat.sub_0_r. reflexivity.
    + by rewrite lookup_insert_eq.
    + rewrite <- Hperm. simpl. apply Permutation_middle.
    + done.
Qed.

Lemma reassembly_feed_all (m : gmap SequenceNumber AssemblyBuffer) (ord : list nat) :
  m !! sn = None -> Permutation ord (seq 0 fc) ->
  feed to_b from_b {| assembler_fragment_size := F; assembly_buffers := m |}
    (map frag ord) flags now =
  Some ({| assembler_fragment_size := F; assembly_buffers := m |},
        replicate (fc - 1) None ++ [result]).
Proof.
  intros Hm Hperm. destruct fc_bounds as (Hfc2 & _ & _).
  rewrite <- (delete_id m sn Hm) at 2.
  rewrite <- (length_seq fc 0), <- (Permutation_length Hperm).
  apply (reassembly_feed m []).
  - by rewrite Hm.
  - exact Hperm.
  - intros ->. apply Permutation_length in Hperm. rewrite length_seq in Hperm. simpl in Hperm. lia.
Qed.

(** [X1] A sample of more than one fragment, sent one fragment per
    DATA_FRAG in any order to an assembler with no buffer for its sequence
    number, is returned exactly once, by the call that brings its last
    missing fragment: every earlier call returns [None], the returned
    payload is [full[4..]] under the identifier read from [full[0..2]],
    a disposed-by-key sample when the Key flag is set, and the buffer of
    the sequence number is gone afterwards. *)
Theorem reassembly_round_trip (r' : R) (m : gmap SequenceNumber AssemblyBuffer) (ord : list nat) :
  from_b (take 2 full) = Some r' ->
  m !! sn = None -> Permutation ord (seq 0 fc) ->
  feed to_b from_b {| assembler_fragment_size := F; assembly_buffers := m |}
    (map frag ord) flags now =
  Some ({| assembler_fragment_size := F; assembly_buffers := m |},
        replicate (fc - 1) None ++
        [Some (if flags_contains flags Key
               then DDSData_new_disposed_by_key NOT_ALIVE_DISPOSED
                      (SerializedPayload_new r' (drop 4 full))
               else DDSData_new (SerializedPayload_new r' (drop 4 full)))]).
Proof.
  intros Hr' Hm Hperm. rewrite (reassembly_feed_all m ord Hm Hperm), Hr'. reflexivity.
Qed.

(** [X2] When the receiver does not recognise the identifier bytes
    [full[0..2]], the same sequence of DATA_FRAGs returns [None] at every
    call, the completing one included, and still drops the buffer: the
    sample is lost silently. *)
Theorem reassembly_unknown_identifier_dropped
    (m : gmap SequenceNumber AssemblyBuffer) (ord : list nat) :
  from_b (take 2 full) = None ->
  m !! sn = None -> Permutation ord (seq 0 fc) ->
  feed to_b from_b {| assembler_fragment_size := F; assembly_buffers := m |}
    (map frag ord) flags now =
  Some ({| assembler_fragment_size := F; assembly_buffers := m |}, replicate fc None).
Proof.
  intros Hr' Hm Hperm. rewrite (reassembly_feed_all m ord Hm Hperm), Hr'.
  destruct fc_bounds as (Hfc2 & _ & _). do 2 f_equal.
  replace fc with (fc - 1 + 1) at 2 by lia. by rewrite replicate_add.
Qed.

End Reassembly.

Lemma reassembly_round_trip_witness :
  4 <= 4 /\ 4 < length sample_10 /\
  raw_rep_id_to_bytes (Byte.x00, Byte.x01) = (nth 0 sample_10 Byte.x00, nth 1 sample_10 Byte.x00) /\
  raw_rep_id_from_bytes (take 2 sample_10) = Some (Byte.x00, Byte.x01) /\
  (∅ : gmap SequenceNumber AssemblyBuffer) !! 7%Z = None /\
  Permutation [2; 0; 1] (seq 0 (fragment_count_of (length sample_10) 4)) /\
  feed raw_rep_id_to_bytes raw_rep_id_from_bytes
    {| assembler_fragment_size := 4; assembly_buffers := ∅ |}
    (map (split_fragment (Byte.x00, Byte.x01) 7%Z 4 sample_10) [2; 0; 1]) [] 0%Z =
  Some ({| assembler_fragment_size := 4; assembly_buffers := ∅ |},
        [None; None; Some (DDSData_new (SerializedPayload_new (Byte.x00, Byte.x01)
                                          (drop 4 sample_10)))]).
Proof.
  assert (Hp : Permutation [2; 0; 1] (seq 0 (fragment_count_of (length sample_10) 4))).
  { apply (bool_decide_eq_true_1 _). vm_compute. reflexivity. }
  split; [lia|]. split; [simpl; lia|]. split; [reflexivity|]. split; [reflexivity|].
  split; [reflexivity|]. split; [exact Hp|].
  apply (reassembly_round_trip raw_rep_id_to_bytes raw_rep_id_from_bytes
           (Byte.x00, Byte.x01) 7%Z 4 sample_10 [] 0%Z);
    [lia | simpl; lia | reflexivity | reflexivity | reflexivity | exact Hp].
Defined.

(** The same sample under an identifier the receiver does not know. *)
Lemma reassembly_unknown_identifier_dropped_witness :
  4 <= 4 /\ 4 < length sample_10 /\
  raw_rep_id_to_bytes (Byte.x00, Byte.x01) = (nth 0 sample_10 Byte.x00, nth 1 sample_10 Byte.x00) /\
  (fun _ : list byte => @None (byte * byte)) (take 2 sample_10) = None /\
  (∅ : gmap SequenceNumber AssemblyBuffer) !! 7%Z = None /\
  Permutation [1; 2; 0] (seq 0 (fragment_count_of (length sample_10) 4)) /\
  feed raw_rep_id_to_bytes (fun _ => None)
    {| assembler_fragment_size := 4; assembly_buffers := ∅ |}
    (map (split_fragment (Byte.x00, Byte.x01) 7%Z 4 sample_10) [1; 2; 0]) [Key] 0%Z =
  Some ({| assembler_fragment_size := 4; assembly_buffers := ∅ |}, [None; None; None]).
Proof.
  assert (Hp : Permutation [1; 2; 0] (seq 0 (fragment_count_of (length sample_10) 4))).
  { apply (bool_decide_eq_true_1 _). vm_compute. reflexivity. }
  split; [lia|]. split; [simpl; lia|]. split; [reflexivity|]. split; [reflexivity|].
  split; [reflexivity|]. split; [exact Hp|].
  apply (reassembly_unknown_identifier_dropped raw_rep_id_to_bytes (fun _ => None)
           (Byte.x00, Byte.x01) 7%Z 4 sample_10 [Key] 0%Z);
    [lia | simpl; lia | reflexivity | reflexivity | reflexivity | exact Hp].
Defined.

(** ** Building and filling one buffer *)

Lemma set_range_lookup bv st n bv' k :
  set_range bv st n = Some bv' ->
  bv' !! k = if decide (st <= k < st + n) then Some true else bv !! k.
Proof.
  revert bv st. induction n as [|n IH]; intros bv st H; simpl in H.
  - injection H as <-. case_decide; [lia|done].
  - unfold bitvec_set, pnc_ret, panic in H.
    destruct (st <? length bv) eqn:E; simpl in H; [|discriminate].
    apply Nat.ltb_lt in E. rewrite (IH _ _ H).
    destruct (decide (k = st)) as [->|Hk].
    + rewrite list_lookup_insert_eq by done. repeat case_decide; try lia; done.
    + rewrite list_lookup_insert_ne by congruence. repeat case_decide; try lia; done.
Qed.

(** [X3] [AssemblyBuffer::new] with a nonzero fragment size: a zeroed
    buffer of [data_size] bytes and a cleared bitmap of [fragment_count]
    bits, [fragment_count] the least number of fragments covering
    [data_size] bytes; the new buffer is already complete exactly when
    [data_size] is 0. *)
Theorem assembly_buffer_new_spec ds F now :
  0 < F ->
  exists ab, AssemblyBuffer_new ds F now = Some ab /\
    buffer_bytes ab = replicate ds Byte.x00 /\
    received_bitmap ab = replicate (fragment_count ab) false /\
    created_time ab = now /\ modified_time ab = now /\
    ds <= fragment_count ab * F /\
    (forall n, ds <= n * F -> fragment_count ab <= n) /\
    (is_complete ab = true <-> ds = 0).
Proof.
  intros HF. unfold AssemblyBuffer_new.
  destruct (F =? 0) eqn:E; [apply Nat.eqb_eq in E; lia|].
  eexists. split; [reflexivity|]. simpl.
  pose proof (Nat.div_mod ds F ltac:(lia)) as Hdm.
  pose proof (Nat.mod_upper_bound ds F ltac:(lia)) as Hr.
  split; [done|]. split; [done|]. split; [done|]. split; [done|].
  destruct (ds mod F =? 0) eqn:Er; [apply Nat.eqb_eq in Er | apply Nat.eqb_neq in Er].
  - split; [nia|]. split; [intros n Hn; nia|].
    unfold is_complete, bitvec_all, bitvec_from_elem.
    destruct (ds / F + 0) as [|c] eqn:Ec; simpl; split; intros H; try done; nia.
  - split; [nia|]. split; [intros n Hn; nia|].
    unfold is_complete, bitvec_all, bitvec_from_elem.
    rewrite Nat.add_1_r. simpl. split; intros H; [discriminate|]. lia.
Qed.

Lemma assembly_buffer_new_spec_witness :
  0 < 4 /\
  exists ab, AssemblyBuffer_new 10 4 0%Z = Some ab /\
    buffer_bytes ab = replicate 10 Byte.x00 /\
    received_bitmap ab = replicate (fragment_count ab) false /\
    created_time ab = 0%Z /\ modified_time ab = 0%Z /\
    10 <= fragment_count ab * 4 /\
    (forall n, 10 <= n * 4 -> fragment_count ab <= n) /\
    (is_complete ab = true <-> 10 = 0).
Proof. split; [lia|]. apply (assembly_buffer_new_spec 10 4 0%Z). lia. Defined.

(** [X4] What a call of [insert_frags] that returns has done: the
    fragment number was at least 1; the bits of the submessage's
    fragments are set and no other bit changes; the bytes
    [[from_byte, to_before_byte)] hold the payload, with fragment 1 the
    four header bytes hold the identifier and options, and no other byte
    changes; the fragment count and creation time are kept and the
    modification time is [now]. *)
Theorem insert_frags_effect {R} (to_b : R -> byte * byte) ab df F now ab' :
  insert_frags to_b ab df F now = Some ab' ->
  1 <= fragment_starting_num df /\
  fragment_count ab' = fragment_count ab /\
  created_time ab' = created_time ab /\ modified_time ab' = now /\
  (forall k, received_bitmap ab' !! k =
     if decide (fragment_starting_num df - 1 <= k <
                fragment_starting_num df - 1 + fragments_in_submessage df)
     then Some true else received_bitmap ab !! k) /\
  (forall j, buffer_bytes ab' !! j =
     if decide (insert_frags_from_byte df F <= j < insert_frags_to_before_byte ab df F)
     then value (serialized_payload df) !! (j - insert_frags_from_byte df F)
     else if decide (fragment_starting_num df = 1 /\ j < 4)
     then insert_frags_header to_b df !! j
     else buffer_bytes ab !! j).
Proof.
  intros H. unfold insert_frags, insert_frags_from_byte, insert_frags_to_before_byte,
    insert_frags_header in *.
  destruct (fragment_starting_num df) as [|s0] eqn:Hs; [discriminate H|].
  unfold usize_sub in H. simpl in H |- *. rewrite !Nat.sub_0_r in *.
  destruct (decide (s0 = 0)) as [->|Hs0].
  - simpl in H |- *.
    destruct (to_b (representation_identifier (serialized_payload df))) as [i0 i1].
    destruct (representation_options (serialized_payload df)) as [o0 o1].
    destruct (slice_copy (buffer_bytes ab) 0 2 [i0; i1]) as [b1|] eqn:E1;
      simpl in H; [|discriminate].
    destruct (slice_copy b1 2 4 [o0; o1]) as [b2|] eqn:E2; simpl in H; [|discriminate].
    match type of H with context [slice_copy b2 ?a ?b ?c] =>
      destruct (slice_copy b2 a b c) as [b3|] eqn:E3 end; simpl in H; [|discriminate].
    match type of H with context [set_range ?a ?b ?c] =>
      destruct (set_range a b c) as [bm|] eqn:E4 end; simpl in H; [|discriminate].
    injection H as <-. simpl.
    split; [lia|]. split; [done|]. split; [done|]. split; [done|]. split.
    + intros k. exact (set_range_lookup _ _ _ _ k E4).
    + intros j. rewrite (slice_copy_lookup _ _ _ _ _ j E3), (slice_copy_lookup _ _ _ _ _ j E2),
        (slice_copy_lookup _ _ _ _ _ j E1).
      repeat case_decide; try lia; try done.
      * assert (j = 2 \/ j = 3) as [-> | ->] by lia; done.
      * assert (j = 0 \/ j = 1) as [-> | ->] by lia; done.
  - rewrite (proj2 (Nat.eqb_neq s0 0) Hs0) in H |- *. simpl in H.
    match type of H with context [slice_copy (buffer_bytes ab) ?a ?b ?c] =>
      destruct (slice_copy (buffer_bytes ab) a b c) as [b3|] eqn:E3 end;
      simpl in H; [|discriminate].
    match type of H with context [set_range ?a ?b ?c] =>
      destruct (set_range a b c) as [bm|] eqn:E4 end; simpl in H; [|discriminate].
    injection H as <-. simpl.
    split; [lia|]. split; [done|]. split; [done|]. split; [done|]. split.
    + intros k. exact (set_range_lookup _ _ _ _ k E4).
    + intros j. rewrite (slice_copy_lookup _ _ _ _ _ j E3).
      repeat case_decide; try lia; done.
Qed.

Lemma insert_frags_effect_witness :
  exists ab', insert_frags raw_rep_id_to_bytes ab_8_4
                (mk_datafrag 8 4 2 1 (replicate 4 Byte.x07)) 4 1%Z = Some ab' /\
  1 <= fragment_starting_num (mk_datafrag 8 4 2 1 (replicate 4 Byte.x07)) /\
  fragment_count ab' = fragment_count ab_8_4 /\
  created_time ab' = created_time ab_8_4 /\ modified_time ab' = 1%Z /\
  (forall k, received_bitmap ab' !! k =
     if decide (2 - 1 <= k < 2 - 1 + 1) then Some true else received_bitmap ab_8_4 !! k) /\
  (forall j, buffer_bytes ab' !! j =
     if decide (insert_frags_from_byte (mk_datafrag 8 4 2 1 (replicate 4 Byte.x07)) 4 <= j <
                insert_frags_to_before_byte ab_8_4 (mk_datafrag 8 4 2 1 (replicate 4 Byte.x07)) 4)
     then replicate 4 Byte.x07 !!
            (j - insert_frags_from_byte (mk_datafrag 8 4 2 1 (replicate 4 Byte.x07)) 4)
     else if decide (2 = 1 /\ j < 4)
     then insert_frags_header raw_rep_id_to_bytes (mk_datafrag 8 4 2 1 (replicate 4 Byte.x07)) !! j
     else buffer_bytes ab_8_4 !! j).
Proof.
  eexists. split; [vm_compute; reflexivity|].
  apply (insert_frags_effect raw_rep_id_to_bytes ab_8_4
           (mk_datafrag 8 4 2 1 (replicate 4 Byte.x07)) 4 1%Z).
  vm_compute. reflexivity.
Defined.

Lemma slice_copy_shape b c f t s b' :
  slice_copy b f t s = Some b' -> length c = length b ->
  exists c', slice_copy c f t s = Some c'.
Proof.
  unfold slice_copy, pnc_ret, panic. intros H Hl. rewrite Hl.
  destruct ((f <=? t) && (t <=? length b)); [|discriminate].
  destruct (length s =? t - f); [by eexists|discriminate].
Qed.

Lemma set_range_shape bv c st n bv' :
  set_range bv st n = Some bv' -> length c = length bv ->
  exists c', set_range c st n = Some c'.
Proof.
  revert bv c st. induction n as [|n IH]; intros bv c st H Hl; simpl in *; [by eexists|].
  unfold bitvec_set, pnc_ret, panic in *. rewrite Hl.
  destruct (st <? length bv); simpl in *; [|discriminate].
  apply (IH _ _ _ H). by rewrite !length_insert.
Qed.

(** Whether [insert_frags] returns depends on the buffer only through
    its length, its fragment count and the length of its bitmap. *)
Lemma insert_frags_shape {R} (to_b : R -> byte * byte) ab ab2 df F now now' ab' :
  insert_frags to_b ab df F now = Some ab' ->
  length (buffer_bytes ab2) = length (buffer_bytes ab) ->
  fragment_count ab2 = fragment_count ab ->
  length (received_bitmap ab2) = length (received_bitmap ab) ->
  exists ab2', insert_frags to_b ab2 df F now' = Some ab2'.
Proof.
  intros H L1 L2 L3. unfold insert_frags in *. rewrite L2.
  destruct (usize_sub (fragment_starting_num df) 1) as [s|]; simpl in *; [|discriminate].
  destruct (s =? 0).
  - destruct (to_b _) as [i0 i1], (representation_options _) as [o0 o1].
    destruct (slice_copy (buffer_bytes ab) 0 2 [i0; i1]) as [b1|] eqn:E1;
      simpl in H; [|discriminate].
    destruct (slice_copy b1 2 4 [o0; o1]) as [b2|] eqn:E2; simpl in H; [|discriminate].
    destruct (slice_copy_shape _ _ _ _ _ _ E1 L1) as [c1 F1]. rewrite F1. simpl.
    assert (Lc1 : length c1 = length b1)
      by (rewrite (slice_copy_length _ _ _ _ _ F1), (slice_copy_length _ _ _ _ _ E1); done).
    destruct (slice_copy_shape _ _ _ _ _ _ E2 Lc1) as [c2 F2]. rewrite F2. simpl.
    assert (Lc2 : length c2 = length b2)
      by (rewrite (slice_copy_length _ _ _ _ _ F2), (slice_copy_length _ _ _ _ _ E2); done).
    match type of H with context [slice_copy b2 ?a ?b ?c] =>
      destruct (slice_copy b2 a b c) as [b3|] eqn:E3 end; simpl in H; [|discriminate].
    destruct (slice_copy_shape _ _ _ _ _ _ E3 Lc2) as [c3 F3]. rewrite F3. simpl.
    match type of H with context [set_range ?a ?b ?c] =>
      destruct (set_range a b c) as [bm|] eqn:E4 end; simpl in H; [|discriminate].
    destruct (set_range_shape _ _ _ _ _ E4 L3) as [cm F4]. rewrite F4. by eexists.
  - simpl in *.
    match type of H with context [slice_copy (buffer_bytes ab) ?a ?b ?c] =>
      destruct (slice_copy (buffer_bytes ab) a b c) as [b3|] eqn:E3 end;
      simpl in H; [|discriminate].
    destruct (slice_copy_shape _ _ _ _ _ _ E3 L1) as [c3 F3]. rewrite F3. simpl.
    match type of H with context [set_range ?a ?b ?c] =>
      destruct (set_range a b c) as [bm|] eqn:E4 end; simpl in H; [|discriminate].
    destruct (set_range_shape _ _ _ _ _ E4 L3) as [cm F4]. rewrite F4. by eexists.
Qed.

(** [X5] Delivering the same DATA_FRAG again to the buffer it was just
    inserted into returns and changes nothing but the modification time:
    the copies and bit sets of [insert_frags] are idempotent. *)
Theorem insert_frags_idempotent {R} (to_b : R -> byte * byte) ab df F now now' ab' :
  insert_frags to_b ab df F now = Some ab' ->
  insert_frags to_b ab' df F now' =
    Some {| buffer_bytes := buffer_bytes ab'; fragment_count := fragment_count ab';
            received_bitmap := received_bitmap ab'; created_time := created_time ab';
            modified_time := now' |}.
Proof.
  intros H. destruct (insert_frags_lengths _ _ _ _ _ _ H) as (L1 & L2 & L3).
  destruct (insert_frags_shape to_b ab ab' df F now now' ab' H L1 L2 L3) as [ab'' H2].
  rewrite H2. f_equal.
  destruct (insert_frags_effect _ _ _ _ _ _ H) as (_ & _ & _ & _ & Bits1 & Bytes1).
  destruct (insert_frags_effect _ _ _ _ _ _ H2) as (_ & Fc2 & Ct2 & Mt2 & Bits2 & Bytes2).
  assert (Hto : insert_frags_to_before_byte ab' df F = insert_frags_to_before_byte ab df F)
    by (unfold insert_frags_to_before_byte; by rewrite L2).
  destruct ab'' as [b c bm ct mt]; simpl in *. subst. f_equal.
  - apply list_eq. intros j. rewrite Bytes2, Hto, (Bytes1 j).
    repeat case_decide; try lia; done.
  - apply list_eq. intros k. rewrite Bits2, (Bits1 k).
    repeat case_decide; try lia; done.
Qed.

Lemma insert_frags_idempotent_witness :
  exists ab', insert_frags raw_rep_id_to_bytes ab_8_4
                (mk_datafrag 8 4 2 1 (replicate 4 Byte.x07)) 4 1%Z = Some ab' /\
  insert_frags raw_rep_id_to_bytes ab' (mk_datafrag 8 4 2 1 (replicate 4 Byte.x07)) 4 2%Z =
    Some {| buffer_bytes := buffer_bytes ab'; fragment_count := fragment_count ab';
            received_bitmap := received_bitmap ab'; created_time := created_time ab';
            modified_time := 2%Z |}.
Proof.
  eexists. split; [vm_compute; reflexivity|].
  apply (insert_frags_idempotent raw_rep_id_to_bytes ab_8_4
           (mk_datafrag 8 4 2 1 (replicate 4 Byte.x07)) 4 1%Z 2%Z).
  vm_compute. reflexivity.
Defined.

(** ** The assembler across calls *)

(** [X6] A call of [new_datafrag] that returns keeps the fragment size
    and the buffers of every other sequence number; afterwards its own
    sequence number has no buffer when a sample was returned, and a
    buffer it still has is incomplete and came with [None]. *)
Theorem new_datafrag_frame {R} (to_b : R -> byte * byte) from_b fa df flags now fa' res :
  new_datafrag to_b from_b fa df flags now = Some (fa', res) ->
  assembler_fragment_size fa' = assembler_fragment_size fa /\
  (forall sn', sn' <> writer_sn df -> assembly_buffers fa' !! sn' = assembly_buffers fa !! sn') /\
  (res <> None -> assembly_buffers fa' !! writer_sn df = None) /\
  (forall ab', assembly_buffers fa' !! writer_sn df = Some ab' ->
               res = None /\ is_complete ab' = false).
Proof.
  intros H. unfold new_datafrag in H. cbv zeta in H.
  destruct (match assembly_buffers fa !! writer_sn df with
            | Some ab => pnc_ret ab
            | None => AssemblyBuffer_new (data_size df) (assembler_fragment_size fa) now
            end) as [ab0|]; simpl in H; [|discriminate].
  destruct (insert_frags to_b ab0 df (assembler_fragment_size fa) now) as [ab1|];
    simpl in H; [|discriminate].
  rewrite lookup_insert_eq in H.
  assert (Hdel : forall r,
    Some ({| assembler_fragment_size := assembler_fragment_size fa;
             assembly_buffers := delete (writer_sn df)
                                   (<[writer_sn df:=ab1]> (assembly_buffers fa)) |}, r)
      = Some (fa', res) ->
    assembler_fragment_size fa' = assembler_fragment_size fa /\
    (forall sn', sn' <> writer_sn df -> assembly_buffers fa' !! sn' = assembly_buffers fa !! sn') /\
    (res <> None -> assembly_buffers fa' !! writer_sn df = None) /\
    (forall ab', assembly_buffers fa' !! writer_sn df = Some ab' ->
                 res = None /\ is_complete ab' = false)).
  { intros r [= <- <-]. simpl. split; [done|]. split.
    - intros sn' Hne. rewrite lookup_delete_ne by congruence.
      by rewrite lookup_insert_ne by congruence.
    - rewrite lookup_delete_eq. split; [done|]. discriminate. }
  destruct (is_complete ab1) eqn:Ec.
  - destruct (slice_range (buffer_bytes ab1) 0 2) as [hdr|]; simpl in H; [|discriminate].
    destruct (from_b hdr) as [r|]; [|eapply Hdel; exact H].
    destruct (slice_from (buffer_bytes ab1) 4); simpl in H; [|discriminate].
    eapply Hdel; exact H.
  - injection H as <- <-. simpl. split; [done|]. split.
    + intros sn' Hne. by rewrite lookup_insert_ne by congruence.
    + rewrite lookup_insert_eq. split; [done|]. by intros ab' [= <-].
Qed.

Lemma new_datafrag_frame_witness :
  exists fa' res,
  new_datafrag raw_rep_id_to_bytes raw_rep_id_from_bytes (FragmentAssembler_new 4)
    (mk_datafrag 8 4 2 1 (replicate 4 Byte.x07)) [] 0%Z = Some (fa', res) /\
  assembler_fragment_size fa' = assembler_fragment_size (FragmentAssembler_new 4) /\
  (forall sn', sn' <> 1%Z ->
     assembly_buffers fa' !! sn' = assembly_buffers (FragmentAssembler_new 4) !! sn') /\
  (res <> None -> assembly_buffers fa' !! 1%Z = None) /\
  (forall ab', assembly_buffers fa' !! 1%Z = Some ab' -> res = None /\ is_complete ab' = false).
Proof.
  do 2 eexists. split; [vm_compute; reflexivity|].
  apply (new_datafrag_frame raw_rep_id_to_bytes raw_rep_id_from_bytes
           (FragmentAssembler_new 4) (mk_datafrag 8 4 2 1 (replicate 4 Byte.x07)) [] 0%Z).
  vm_compute. reflexivity.
Defined.

(** [X7] An assembler a receive path builds never holds a complete
    buffer, and every buffer it holds is one [AssemblyBuffer::new] and
    [insert_frags] build for its fragment size. *)
Theorem fa_reachable_buffers {R} (to_b : R -> byte * byte) from_b fa :
  fa_reachable to_b from_b fa ->
  forall sn ab, assembly_buffers fa !! sn = Some ab ->
  is_complete ab = false /\ ab_reachable to_b (assembler_fragment_size fa) ab.
Proof.
  induction 1 as [F | fa df flags now fa' res _ IH H]; intros sn ab Hab.
  - simpl in Hab. by rewrite lookup_empty in Hab.
  - destruct (new_datafrag_frame _ _ _ _ _ _ _ _ H) as (HF & Hother & _ & Hself).
    rewrite HF. destruct (decide (sn = writer_sn df)) as [->|Hne].
    + split; [exact (proj2 (Hself ab Hab))|].
      unfold new_datafrag in H. cbv zeta in H.
      destruct (assembly_buffers fa !! writer_sn df) as [ab0|] eqn:E0.
      * simpl in H.
        destruct (insert_frags to_b ab0 df (assembler_fragment_size fa) now) as [ab1|] eqn:E1;
          simpl in H; [|discriminate].
        destruct (is_complete ab1) eqn:Ec.
        { exfalso. rewrite lookup_insert_eq in H.
          destruct (slice_range (buffer_bytes ab1) 0 2); simpl in H; [|discriminate].
          destruct (from_b _); [destruct (slice_from _ _); simpl in H; [|discriminate]|];
            injection H as <- _; simpl in Hab; by rewrite lookup_delete_eq in Hab. }
        injection H as <- _. simpl in Hab. rewrite lookup_insert_eq in Hab. injection Hab as <-.
        apply (reach_ab_insert _ _ ab0 df now); [|exact E1].
        exact (proj2 (IH _ _ E0)).
      * destruct (AssemblyBuffer_new (data_size df) (assembler_fragment_size fa) now)
          as [ab0|] eqn:E0'; simpl in H; [|discriminate].
        destruct (insert_frags to_b ab0 df (assembler_fragment_size fa) now) as [ab1|] eqn:E1;
          simpl in H; [|discriminate].
        destruct (is_complete ab1) eqn:Ec.
        { exfalso. rewrite lookup_insert_eq in H.
          destruct (slice_range (buffer_bytes ab1) 0 2); simpl in H; [|discriminate].
          destruct (from_b _); [destruct (slice_from _ _); simpl in H; [|discriminate]|];
            injection H as <- _; simpl in Hab; by rewrite lookup_delete_eq in Hab. }
        injection H as <- _. simpl in Hab. rewrite lookup_insert_eq in Hab. injection Hab as <-.
        apply (reach_ab_insert _ _ ab0 df now); [|exact E1].
        exact (reach_ab_new _ _ _ _ _ E0').
    + rewrite (Hother sn Hne) in Hab. exact (IH sn ab Hab).
Qed.

Lemma fa_reachable_buffers_witness :
  fa_reachable raw_rep_id_to_bytes raw_rep_id_from_bytes fa_4_after_frag2 /\
  forall sn ab, assembly_buffers fa_4_after_frag2 !! sn = Some ab ->
  is_complete ab = false /\ ab_reachable raw_rep_id_to_bytes (assembler_fragment_size fa_4_after_frag2) ab.
Proof.
  assert (Hr : fa_reachable raw_rep_id_to_bytes raw_rep_id_from_bytes fa_4_after_frag2).
  { apply (reach_fa_step _ _ (FragmentAssembler_new 4) (mk_datafrag 8 4 2 1 (replicate 4 Byte.x07))
             [] 0%Z _ None (reach_fa_new _ _ 4)).
    vm_compute. reflexivity. }
  split; [exact Hr|].
  apply (fa_reachable_buffers raw_rep_id_to_bytes raw_rep_id_from_bytes). exact Hr.
Defined.

(** [X8] A DATA_FRAG for a sequence number that has no buffer panics
    when the assembler's fragment size is 0 (the division in
    [AssemblyBuffer::new]) or when it announces a [data_size] of 0 (the
    zero-length buffer takes neither the header nor any payload). *)
Theorem new_datafrag_fresh_zero_size_panics {R} (to_b : R -> byte * byte) from_b fa df flags now :
  assembly_buffers fa !! writer_sn df = None ->
  assembler_fragment_size fa = 0 \/ data_size df = 0 ->
  new_datafrag to_b from_b fa df flags now = None.
Proof.
  intros Hfresh Hz. unfold new_datafrag. cbv zeta. rewrite Hfresh. simpl.
  unfold AssemblyBuffer_new.
  destruct (assembler_fragment_size fa =? 0) eqn:EF; [reflexivity|].
  apply Nat.eqb_neq in EF. destruct Hz as [Hz|Hds]; [lia|]. rewrite Hds. simpl.
  rewrite Nat.Div0.div_0_l, Nat.Div0.mod_0_l. simpl.
  set (F := assembler_fragment_size fa).
  set (ab0 := {| buffer_bytes := []; fragment_count := 0;
                 received_bitmap := bitvec_from_elem 0 false;
                 created_time := now; modified_time := now |}).
  assert (Hins : insert_frags to_b ab0 df F now = None).
  { destruct (fragment_starting_num df) as [|[|s']] eqn:Hs.
    - by apply insert_frags_start_zero_panics.
    - unfold insert_frags, usize_sub. rewrite Hs. simpl.
      destruct (to_b _), (representation_options _).
      first [reflexivity | rewrite slice_copy_panics_past_end by (simpl; lia); reflexivity].
    - apply insert_frags_past_end_panics; [lia|].
      unfold insert_frags_to_before_byte. rewrite Hs. simpl. nia. }
  by rewrite Hins.
Qed.

Lemma new_datafrag_fresh_zero_size_panics_witness :
  assembly_buffers (FragmentAssembler_new 4) !! writer_sn (mk_datafrag 0 4 1 1 []) = None /\
  (assembler_fragment_size (FragmentAssembler_new 4) = 0 \/
   data_size (mk_datafrag 0 4 1 1 []) = 0) /\
  new_datafrag raw_rep_id_to_bytes raw_rep_id_from_bytes (FragmentAssembler_new 4)
    (mk_datafrag 0 4 1 1 []) [] 0%Z = None.
Proof.
  split; [reflexivity|]. split; [right; reflexivity|].
  apply new_datafrag_fresh_zero_size_panics; [reflexivity | right; reflexivity].
Defined.

(** ** The sample cache across calls *)

Section MapLemmas.
Context {V : Type}.
Implicit Types (l : list (Instant * V)) (k : Instant) (v : V).

(** [insert] leaves every other key where [get] finds it. *)
Lemma insert_entries_get_ne k k' v l :
  k' <> k -> BTree.get_entries k' (fst (BTree.insert_entries k v l)) = BTree.get_entries k' l.
Proof.
  intros Hne. induction l as [|[k1 v1] l IH]; simpl.
  - destruct (Z.eqb_spec k' k); [lia|]. by destruct (k' <? k)%Z.
  - destruct (Z.ltb_spec k k1); simpl.
    + destruct (Z.eqb_spec k' k); [lia|]. destruct (Z.ltb_spec k' k); [|done].
      destruct (Z.eqb_spec k' k1); [lia|]. destruct (Z.ltb_spec k' k1); [done|lia].
    + destruct (Z.eqb_spec k k1) as [<-|Hk]; simpl.
      * destruct (Z.eqb_spec k' k); [lia|]. done.
      * destruct (BTree.insert_entries k v l) as [r o] eqn:E. simpl in *. by rewrite IH.
Qed.

(** No key at or below every key of a list is found in it. *)
Lemma get_entries_below k l :
  Forall (fun kv => (k < fst kv)%Z) l -> BTree.get_entries k l = None.
Proof.
  destruct 1 as [|[k1 v1] l Hk _]; [done|]. simpl in *.
  destruct (Z.eqb_spec k k1); [lia|]. destruct (Z.ltb_spec k k1); [done|lia].
Qed.

Lemma key_lt_below k v l :
  Forall (key_lt (k, v)) l -> Forall (fun kv => (k < fst kv)%Z) l.
Proof. intros H. eapply Forall_impl; [exact H|]. by unfold key_lt. Qed.

Lemma remove_entries_old k l :
  StronglySorted key_lt l -> snd (BTree.remove_entries k l) = BTree.get_entries k l.
Proof.
  induction 1 as [|[k1 v1] l Hs IH Hf]; [done|]. simpl.
  destruct (Z.eqb_spec k k1); [done|].
  destruct (BTree.remove_entries k l) as [r o] eqn:E. simpl in *. rewrite IH.
  destruct (Z.ltb_spec k k1); [|done].
  apply get_entries_below. eapply Forall_impl; [exact (key_lt_below _ _ _ Hf)|].
  intros kv Hkv. simpl in Hkv. lia.
Qed.

Lemma remove_entries_get k k' l :
  StronglySorted key_lt l ->
  BTree.get_entries k' (fst (BTree.remove_entries k l)) =
    if Z.eqb k' k then None else BTree.get_entries k' l.
Proof.
  induction 1 as [|[k1 v1] l Hs IH Hf]; simpl; [by destruct (k' =? k)%Z|].
  pose proof (key_lt_below _ _ _ Hf) as Hb.
  destruct (Z.eqb_spec k k1) as [<-|Hk].
  - simpl. destruct (Z.eqb_spec k' k) as [->|Hk'].
    + by apply get_entries_below.
    + destruct (Z.ltb_spec k' k); [|done]. apply get_entries_below.
      eapply Forall_impl; [exact Hb|]. intros kv Hkv. simpl in Hkv. lia.
  - destruct (BTree.remove_entries k l) as [r o] eqn:E. simpl in *. rewrite IH.
    destruct (Z.eqb_spec k' k1) as [->|Hk1].
    + destruct (Z.eqb_spec k1 k); [lia|]. done.
    + destruct (Z.eqb_spec k' k); [|done]. subst. destruct (Z.ltb_spec k k1); done.
Qed.

Lemma remove_entries_in k l x : In x (fst (BTree.remove_entries k l)) -> In x l.
Proof.
  induction l as [|[k1 v1] l IH]; simpl; [done|].
  destruct (k =? k1)%Z; [by right|].
  destruct (BTree.remove_entries k l) as [r o]. simpl. intros [H|H]; [by left | right; auto].
Qed.

Lemma remove_entries_sorted k l :
  StronglySorted key_lt l -> StronglySorted key_lt (fst (BTree.remove_entries k l)).
Proof.
  induction 1 as [|[k1 v1] l Hs IH Hf]; simpl; [constructor|].
  destruct (k =? k1)%Z; [done|].
  destruct (BTree.remove_entries k l) as [r o] eqn:E. simpl in *. constructor; [done|].
  rewrite List.Forall_forall in Hf |- *. intros x Hx. apply Hf.
  apply (remove_entries_in k). by rewrite E.
Qed.

(** On sorted entries, the closed range [[k, k]] holds the entry at [k]
    if there is one. *)
Lemma filter_point k l :
  StronglySorted key_lt l ->
  List.filter (in_closed k k) l =
    match BTree.get_entries k l with Some v => [(k, v)] | None => [] end.
Proof.
  induction 1 as [|[k1 v1] l Hs IH Hf]; [done|]. simpl.
  pose proof (key_lt_below _ _ _ Hf) as Hb.
  assert (Hnone : forall k0, (k0 <= k1)%Z -> List.filter (in_closed k0 k0) l = []).
  { intros k0 Hk0. apply filter_none. eapply Forall_impl; [exact Hb|].
    intros [k2 v2] H. simpl in H. unfold in_closed; simpl.
    apply andb_false_intro2, Z.leb_gt. lia. }
  unfold in_closed at 1; simpl.
  destruct (Z.eqb_spec k k1) as [->|Hk].
  - rewrite Z.leb_refl. simpl. rewrite Hnone by lia. done.
  - destruct (Z.ltb_spec k k1).
    + destruct (Z.leb_spec k k1), (Z.leb_spec k1 k); try lia; simpl; apply Hnone; lia.
    + destruct (Z.leb_spec k k1); [lia|]. simpl. exact IH.
Qed.

End MapLemmas.

Section CacheProps.
Context {C Q : Type} (qos_none : Q).
Implicit Types (c : DDSCache (CacheChange := C) (QosPolicies := Q)).

(** A range query with [start <= end] on a cache the operations build
    returns the topic's entries in the closed interval. *)
Lemma cache_range_filter c n s e :
  cache_reachable qos_none c -> (s <= e)%Z ->
  from_topic_get_changes_in_range c n s e =
    Some (List.filter (in_closed s e) (topic_entries c n)).
Proof.
  intros Hr Hle. unfold from_topic_get_changes_in_range, topic_entries.
  destruct (topic_caches c !! n) as [tc|] eqn:E; [|done].
  destruct (cache_reachable_wf qos_none c Hr n tc E) as [Hs Hroot].
  unfold get_range_of_changes_vec, BTree.range_incl.
  destruct (BTree.root (changes (history_cache tc))) eqn:Ert.
  - destruct (Z.ltb_spec e s); [lia|]. simpl.
    rewrite fold_push_app. simpl. f_equal. by apply range_walk_filter.
  - simpl. destruct (BTree.entries (changes (history_cache tc))) eqn:En; [done|].
    exfalso. assert (false = true) as Hf by (apply Hroot; done). discriminate.
Qed.

(** [X9] [to_topic_add_change] into a topic that holds no change at the
    instant stores the change there: it is then what
    [from_topic_get_change] finds, every other (topic, instant) pair reads
    as before, no topic's QoS changes and no topic is added or
    removed. *)
Theorem to_topic_add_change_get c n i cc :
  topic_caches c !! n <> None -> from_topic_get_change c n i = None ->
  exists c', to_topic_add_change c n i cc = Some c' /\
    from_topic_get_change c' n i = Some cc /\
    (forall n' i', (n', i') <> (n, i) ->
       from_topic_get_change c' n' i' = from_topic_get_change c n' i') /\
    (forall n', get_topic_qos c' n' = get_topic_qos c n') /\
    (forall n', topic_caches c' !! n' = None <-> topic_caches c !! n' = None).
Proof.
  intros Hn Hget. unfold from_topic_get_change, to_topic_add_change, get_topic_qos in *.
  destruct (topic_caches c !! n) as [tc|] eqn:E; [|done].
  unfold tc_add_change, hc_add_change, hc_get_change, BTree.insert, BTree.get in *.
  pose proof (insert_entries_old i cc (BTree.entries (changes (history_cache tc)))) as Hold.
  pose proof (insert_entries_get i cc (BTree.entries (changes (history_cache tc)))) as Hnew.
  pose proof (fun i' => insert_entries_get_ne i i' cc
                          (BTree.entries (changes (history_cache tc)))) as Hne.
  destruct (BTree.insert_entries i cc (BTree.entries (changes (history_cache tc)))) as [l o].
  simpl in *. rewrite Hget in Hold. subst o. simpl.
  eexists. split; [reflexivity|]. simpl. split; [by rewrite lookup_insert_eq|]. split; [|split].
  - intros n' i' Hpair. destruct (decide (n' = n)) as [->|Hn'].
    + rewrite lookup_insert_eq, E. simpl. apply Hne. congruence.
    + by rewrite lookup_insert_ne by congruence.
  - intros n'. destruct (decide (n' = n)) as [->|Hn'].
    + by rewrite lookup_insert_eq, E.
    + by rewrite lookup_insert_ne by congruence.
  - intros n'. destruct (decide (n' = n)) as [->|Hn'].
    + rewrite lookup_insert_eq, E. split; discriminate.
    + by rewrite lookup_insert_ne by congruence.
Qed.

(** [X10] [to_topic_add_change] panics exactly when the topic exists and
    already holds a change at the instant. *)
Theorem to_topic_add_change_panics_iff c n i cc :
  to_topic_add_change c n i cc = None <-> exists cc0, from_topic_get_change c n i = Some cc0.
Proof.
  unfold to_topic_add_change, from_topic_get_change.
  destruct (topic_caches c !! n) as [tc|]; [|split; [discriminate | by intros []]].
  unfold tc_add_change, hc_add_change, hc_get_change, BTree.insert, BTree.get.
  pose proof (insert_entries_old i cc (BTree.entries (changes (history_cache tc)))) as Hold.
  destruct (BTree.insert_entries i cc (BTree.entries (changes (history_cache tc)))) as [l o].
  simpl in *. rewrite <- Hold.
  destruct o as [cc0|]; simpl.
  - split; [intros _; by exists cc0 | done].
  - split; [intros Hx; discriminate Hx | intros [x Hx]; discriminate Hx].
Qed.

(** [X11] [remove_topic] forgets the topic, its QoS and its changes,
    keeps every other topic as it was, and lets [add_new_topic] create the
    topic anew. *)
Theorem remove_topic_spec c n k tn :
  topic_caches (remove_topic c n) !! n = None /\
  get_topic_qos (remove_topic c n) n = None /\
  (forall i, from_topic_get_change (remove_topic c n) n i = None) /\
  topic_entries (remove_topic c n) n = [] /\
  (forall n', n' <> n -> topic_caches (remove_topic c n) !! n' = topic_caches c !! n') /\
  snd (add_new_topic qos_none (remove_topic c n) n k tn) = true.
Proof.
  assert (Hgone : topic_caches (remove_topic c n) !! n = None).
  { unfold remove_topic. destruct (topic_caches c !! n) eqn:E; simpl; [|done].
    apply lookup_delete_eq. }
  split; [done|]. unfold get_topic_qos, from_topic_get_change, topic_entries, add_new_topic.
  rewrite Hgone. split; [done|]. split; [done|]. split; [done|]. split; [|done].
  intros n' Hne. unfold remove_topic. destruct (topic_caches c !! n); [|done].
  simpl. by rewrite lookup_delete_ne by congruence.
Qed.

(** [X12] A write through [get_topic_qos_mut] to an existing topic is
    what [get_topic_qos] then returns for it; the QoS of every other
    topic and every change of every topic stay as they were. *)
Theorem write_topic_qos_spec c n q :
  topic_caches c !! n <> None ->
  get_topic_qos (write_topic_qos_mut c n q) n = Some q /\
  (forall n', n' <> n -> get_topic_qos (write_topic_qos_mut c n q) n' = get_topic_qos c n') /\
  (forall n' i, from_topic_get_change (write_topic_qos_mut c n q) n' i =
                from_topic_get_change c n' i) /\
  (forall n', topic_entries (write_topic_qos_mut c n q) n' = topic_entries c n').
Proof.
  intros Hn. unfold write_topic_qos_mut, get_topic_qos, from_topic_get_change, topic_entries.
  destruct (topic_caches c !! n) as [tc|] eqn:E; [|done]. simpl.
  rewrite lookup_insert_eq. split; [done|]. split; [|split].
  - intros n' Hne. by rewrite lookup_insert_ne by congruence.
  - intros n' i. destruct (decide (n' = n)) as [->|Hne].
    + by rewrite lookup_insert_eq, E.
    + by rewrite lookup_insert_ne by congruence.
  - intros n'. destruct (decide (n' = n)) as [->|Hne].
    + by rewrite lookup_insert_eq, E.
    + by rewrite lookup_insert_ne by congruence.
Qed.

(** [X13] On a cache the operations build, the range query over the
    single instant [[i, i]] returns the change [from_topic_get_change]
    finds at [i], or nothing. *)
Theorem range_point_is_get c n i :
  cache_reachable qos_none c ->
  from_topic_get_changes_in_range c n i i =
    Some (match from_topic_get_change c n i with Some cc => [(i, cc)] | None => [] end).
Proof.
  intros Hr. rewrite (cache_range_filter c n i i Hr (Z.le_refl i)).
  unfold topic_entries, from_topic_get_change, hc_get_change, BTree.get.
  destruct (topic_caches c !! n) as [tc|] eqn:E; [|done]. f_equal.
  apply filter_point. exact (proj1 (cache_reachable_wf qos_none c Hr n tc E)).
Qed.

End CacheProps.

(** [X14] [DDSHistoryCache::remove_change] on a well-formed history
    returns what [get_change] found, after which the instant reads as
    empty, every other instant reads as before and the entries stay
    sorted; but the map keeps its root node, so once a change was removed
    a range query with start > end panics even when no entry is left. *)
Theorem hc_remove_change_spec {C} (h : DDSHistoryCache (CacheChange := C)) i h' o :
  hc_wf h -> hc_remove_change h i = (h', o) ->
  o = hc_get_change h i /\ hc_get_change h' i = None /\
  (forall i', i' <> i -> hc_get_change h' i' = hc_get_change h i') /\
  StronglySorted key_lt (BTree.entries (changes h')) /\
  (o <> None -> forall s e, (e < s)%Z -> get_range_of_changes_vec h' s e = None).
Proof.
  intros [Hs Hroot] H. unfold hc_remove_change, BTree.remove in H.
  pose proof (remove_entries_old i _ Hs) as Hold.
  pose proof (fun i' => remove_entries_get i i' _ Hs) as Hget.
  pose proof (remove_entries_sorted i _ Hs) as Hsort.
  destruct (BTree.remove_entries i (BTree.entries (changes h))) as [l o'] eqn:E.
  injection H as <- <-. simpl in *. unfold hc_get_change, BTree.get. simpl.
  split; [done|]. split; [by rewrite Hget, Z.eqb_refl|]. split; [|split; [done|]].
  - intros i' Hne. rewrite Hget. by destruct (Z.eqb_spec i' i).
  - intros Ho s e Hes. unfold get_range_of_changes_vec, BTree.range_incl. simpl.
    assert (Hr : BTree.root (changes h) = true).
    { apply Hroot. intros Hn. rewrite Hold, Hn in Ho. by apply Ho. }
    rewrite Hr. by destruct (Z.ltb_spec e s); [|lia].
Qed.

Lemma hc_remove_change_spec_witness :
  hc_wf hist_5 /\ hc_remove_change hist_5 5%Z = (hist_rooted_empty, Some 7) /\
  Some 7 = hc_get_change hist_5 5%Z /\
  hc_get_change hist_rooted_empty 5%Z = None /\
  (forall i', i' <> 5%Z ->
     hc_get_change hist_rooted_empty i' = hc_get_change hist_5 i') /\
  StronglySorted key_lt (BTree.entries (changes hist_rooted_empty)) /\
  (Some 7 <> None -> forall s e, (e < s)%Z ->
     get_range_of_changes_vec hist_rooted_empty s e = None).
Proof.
  assert (Hwf : hc_wf hist_5).
  { split; [repeat constructor|]. simpl. split; [intros _; discriminate | reflexivity]. }
  split; [exact Hwf|]. split; [reflexivity|].
  apply (hc_remove_change_spec hist_5 5%Z); [exact Hwf | reflexivity].
Defined.

Lemma to_topic_add_change_get_witness :
  topic_caches cache_t !! "t"%string <> None /\
  from_topic_get_change cache_t "t"%string 5%Z = None /\
  exists c', to_topic_add_change cache_t "t"%string 5%Z 7 = Some c' /\
    from_topic_get_change c' "t"%string 5%Z = Some 7 /\
    (forall n' i', (n', i') <> ("t"%string, 5%Z) ->
       from_topic_get_change c' n' i' = from_topic_get_change cache_t n' i') /\
    (forall n', get_topic_qos c' n' = get_topic_qos cache_t n') /\
    (forall n', topic_caches c' !! n' = None <-> topic_caches cache_t !! n' = None).
Proof.
  assert (H1 : topic_caches cache_t !! "t"%string <> None) by (vm_compute; discriminate).
  assert (H2 : from_topic_get_change cache_t "t"%string 5%Z = None) by (vm_compute; reflexivity).
  split; [exact H1|]. split; [exact H2|].
  exact (to_topic_add_change_get cache_t "t"%string 5%Z 7 H1 H2).
Defined.

Lemma write_topic_qos_spec_witness :
  topic_caches cache_t5 !! "t"%string <> None /\
  get_topic_qos (write_topic_qos_mut cache_t5 "t"%string tt) "t"%string = Some tt /\
  (forall n', n' <> "t"%string ->
     get_topic_qos (write_topic_qos_mut cache_t5 "t"%string tt) n' = get_topic_qos cache_t5 n') /\
  (forall n' i, from_topic_get_change (write_topic_qos_mut cache_t5 "t"%string tt) n' i =
                from_topic_get_change cache_t5 n' i) /\
  (forall n', topic_entries (write_topic_qos_mut cache_t5 "t"%string tt) n' =
              topic_entries cache_t5 n').
Proof.
  assert (H1 : topic_caches cache_t5 !! "t"%string <> None) by (vm_compute; discriminate).
  split; [exact H1|]. exact (write_topic_qos_spec cache_t5 "t"%string tt H1).
Defined.

Lemma range_point_is_get_witness :
  cache_reachable tt cache_t5 /\
  from_topic_get_changes_in_range cache_t5 "t"%string 5%Z 5%Z =
    Some (match from_topic_get_change cache_t5 "t"%string 5%Z with
          | Some cc => [(5%Z, cc)] | None => [] end).
Proof.
  assert (Hr : cache_reachable tt cache_t5).
  { apply (reach_add_change tt cache_t "t"%string 5%Z 7).
    - apply reach_add_new_topic, reach_cache_new.
    - vm_compute. reflexivity. }
  split; [exact Hr|]. exact (range_point_is_get tt cache_t5 "t"%string 5%Z Hr).
Defined.

(** [X15] Adding a topic the cache does not have and removing it again
    gives back the cache as it was. *)
Theorem add_then_remove_topic {C Q} (qos_none : Q) (c : DDSCache (CacheChange := C) (QosPolicies := Q))
    n k tn :
  topic_caches c !! n = None ->
  remove_topic (fst (add_new_topic qos_none c n k tn)) n = c.
Proof.
  intros Hn. unfold add_new_topic. rewrite Hn. simpl. unfold remove_topic. simpl.
  rewrite lookup_insert_eq. simpl. rewrite delete_insert_id by exact Hn.
  by destruct c.
Qed.

Lemma add_then_remove_topic_witness :
  topic_caches cache_t5 !! "u"%string = None /\
  remove_topic (fst (add_new_topic tt cache_t5 "u"%string NO_KEY "U"%string)) "u"%string = cache_t5.
Proof.
  assert (H : topic_caches cache_t5 !! "u"%string = None) by (vm_compute; reflexivity).
  split; [exact H|]. exact (add_then_remove_topic tt cache_t5 "u"%string NO_KEY "U"%string H).
Defined.
